(** * langgraph_swarm: handoff tools and the active-agent router

    A shallow embedding of [langgraph_swarm/handoff.py] and
    [langgraph_swarm/swarm.py].

    Python strings are sequences of Unicode code points, dictionaries
    that are only read by key are finite maps, dictionaries that are
    iterated keep their insertion order, and a raised exception is a
    value of the [result] type.  The graph builder is a mutable object
    shared between caller and callee, so builders live in a store and
    are passed by reference. *)

From Stdlib Require Import NArith ZArith Ascii String List Lia.
From stdpp Require Import gmap strings list fin_maps.

Set Default Proof Using "Type".
Set Warnings "-register-all".

(** ** Python runtime values *)

Module Py.

(** A [str] is its list of code points. *)
Definition str : Type := list N.

(** An ASCII literal of the source, as a [str]. *)
Definition lit (s : string) : str :=
  map N_of_ascii (list_ascii_of_string s).

(** [Py_UNICODE_ISSPACE]: the one predicate behind both [str.strip()]
    and the class [\s] of a [str] pattern. *)
Definition isspace (c : N) : bool :=
  ((9 <=? c) && (c <=? 13) || (28 <=? c) && (c <=? 32)
   || (c =? 133) || (c =? 160) || (c =? 5760)
   || (8192 <=? c) && (c <=? 8202)
   || (c =? 8232) || (c =? 8233) || (c =? 8239) || (c =? 8287)
   || (c =? 12288))%N.

(** [str.lower()] needs the case tables of the Unicode database (and is
    context sensitive), so the interpreter's mapping is a parameter. *)
Class CaseMapping := { lower : str -> str }.

(** What [str.lower()] does on ASCII text: used to run the definitions
    on concrete names. *)
Definition ascii_lower_char (c : N) : N :=
  if ((65 <=? c) && (c <=? 90))%N then (c + 32)%N else c.

Definition ascii_case : CaseMapping := {| lower := map ascii_lower_char |}.

Fixpoint drop_while (p : N -> bool) (s : str) : str :=
  match s with
  | [] => []
  | c :: s' => if p c then drop_while p s' else s
  end.

(** [s.lstrip()], [s.rstrip()] and [s.strip()] with no argument. *)
Definition lstrip (s : str) : str := drop_while isspace s.
Definition rstrip (s : str) : str := rev (drop_while isspace (rev s)).
Definition strip (s : str) : str := rstrip (lstrip s).

(** Exceptions raised by the code under study: the three [ValueError]s
    of this package, and those with which the framework's builder
    refuses a node or a branch. *)
Inductive value_error : Type :=
  | BuilderMissingActiveAgent
  | DefaultNotInRoutes (default_active_agent : str) (route_to : list str)
  | SchemaMissingActiveAgent
  | NodeIsStateKey (node : str)
  | NodeAlreadyPresent (node : str)
  | NodeReserved (node : str)
  | ReservedCharacter (character : N) (node : str)
  | BranchAlreadyExists (branch source : str).

Inductive exn : Type :=
  | ValueError (why : value_error)
  | KeyError (key : str)
  | TypeError
  | ReferenceError.

Inductive result (A : Type) : Type :=
  | Ok (a : A)
  | Raise (e : exn).
Arguments Ok {A} a.
Arguments Raise {A} e.

Definition bind {A B} (r : result A) (k : A -> result B) : result B :=
  match r with
  | Ok a => k a
  | Raise e => Raise e
  end.

(** Messages of the shared log. *)
Inductive message : Type :=
  | ToolMessage (content name tool_call_id : str)
  | ChatMessage (role content : str).

(** The values that occur in state dictionaries and tool metadata. *)
Inductive value : Type :=
  | VNone
  | VStr (s : str)
  | VInt (z : Z)
  | VMsg (m : message)
  | VList (l : list value)
  | VPromptTemplate (messages : list value).

(** [d[k]] *)
Definition getitem {V} (d : gmap str V) (k : str) : result V :=
  match d !! k with
  | Some v => Ok v
  | None => Raise (KeyError k)
  end.

(** [k in d] *)
Definition contains {V} (d : gmap str V) (k : str) : bool :=
  bool_decide (is_Some (d !! k)).

(** [d.get(k, default)] *)
Definition get {V} (d : gmap str V) (k : str) (default : V) : V :=
  match d !! k with
  | Some v => v
  | None => default
  end.

(** [x in l] for a list of strings. *)
Definition list_contains (l : list str) (x : str) : bool :=
  bool_decide (x ∈ l).

(** [a + b] where [b] is a list of messages.  Python asks the left
    operand: a list concatenates; a message starts a chat prompt
    template with itself and takes the messages of [b] into it; a
    prompt template takes them after its own; [None], a [str] and an
    [int] have no sum with a list. *)
Definition add_list (a : value) (b : list value) : result value :=
  match a with
  | VList l => Ok (VList (l ++ b))
  | VMsg m => Ok (VPromptTemplate (VMsg m :: b))
  | VPromptTemplate l => Ok (VPromptTemplate (l ++ b))
  | VNone | VStr _ | VInt _ => Raise TypeError
  end.

End Py.

Import Py.

Notation "x <- e ;; k" := (Py.bind e (fun x => k))
  (at level 100, e at next level, right associativity, only parsing).

(** ** The regular expression [\s+]

    [re.sub] scans left to right; at each position it tries the pattern,
    which is greedy and takes the longest run of [\s] characters there.
    On a match the replacement is emitted and scanning resumes after the
    match; otherwise one character is copied. *)

Module Re.

(** The greedy match of [\s*] at the start of [s]: what is matched and
    what remains. *)
Fixpoint span_space (s : str) : str * str :=
  match s with
  | [] => ([], [])
  | c :: s' =>
      if isspace c
      then let '(m, r) := span_space s' in (c :: m, r)
      else ([], s)
  end.

(** [WHITESPACE_RE.match(s)]: [\s+] needs at least one character. *)
Definition match_here (s : str) : option (str * str) :=
  match span_space s with
  | ([], _) => None
  | (m, r) => Some (m, r)
  end.

Fixpoint sub_loop (fuel : nat) (repl s : str) : str :=
  match fuel, s with
  | _, [] => []
  | O, _ => s
  | S fuel', c :: s' =>
      match match_here s with
      | Some (_, rest) => repl ++ sub_loop fuel' repl rest
      | None => c :: sub_loop fuel' repl s'
      end
  end.

(** [WHITESPACE_RE.sub(repl, s)]: every step consumes a character, so
    [length s] steps are enough. *)
Definition sub (repl s : str) : str := sub_loop (length s) repl s.

End Re.

(** ** handoff.py *)

Definition METADATA_KEY_HANDOFF_DESTINATION : str := lit "__handoff_destination".

(** [Command.PARENT]: the command addresses the graph that contains the
    agent, not the agent's own graph. *)
Inductive graph_ref : Type := PARENT | CURRENT.

Record Command : Type := {
  goto : str;
  graph : graph_ref;
  update : gmap str value
}.

(** A tool as this package uses it: its name and description, its
    metadata ([None] until set) and the function run on invocation with
    the injected state and tool-call id. *)
Record BaseTool : Type := {
  tool_name : str;
  description : str;
  metadata : option (gmap str value);
  func : gmap str value -> str -> result Command
}.

Definition invoke (t : BaseTool) (state : gmap str value) (tool_call_id : str)
  : result Command :=
  func t state tool_call_id.

(** The text before the agent name in the tool message, and the two
    halves of the default description around it. *)
Definition handoff_message_prefix : str :=
  [0x5df2; 0x6210; 0x529f; 0x4ea4; 0x63a5; 0x81f3; 0x667a; 0x80fd; 0x4f53; 0x20]%N.
Definition default_description_prefix : str :=
  [0x5411; 0x667a; 0x80fd; 0x4f53; 0x20; 0x27]%N.
Definition default_description_suffix : str :=
  [0x27; 0x20; 0x8bf7; 0x6c42; 0x5e2e; 0x52a9]%N.

(** The closure [handoff_to_agent]; [agent_name] and [name] are the
    variables it captures from [create_handoff_tool]. *)
Definition handoff_to_agent (agent_name name : str)
    (state : gmap str value) (tool_call_id : str) : result Command :=
  let tool_message :=
    ToolMessage (handoff_message_prefix ++ agent_name) name tool_call_id in
  messages <- getitem state (lit "messages") ;;
  messages' <- add_list messages [VMsg tool_message] ;;
  Ok {| goto := agent_name;
        graph := PARENT;
        update := <[lit "active_agent" := VStr agent_name]>
                    (<[lit "messages" := messages']> ∅) |}.

Section Handoff.
Context `{CaseMapping}.

Definition _normalize_agent_name (agent_name : str) : str :=
  lower (Re.sub (lit "_") (strip agent_name)).

Definition create_handoff_tool (agent_name : str) (description : option str)
  : BaseTool :=
  let name := lit "transfer_to_" ++ _normalize_agent_name agent_name in
  let description :=
    match description with
    | None => default_description_prefix ++ agent_name ++ default_description_suffix
    | Some d => d
    end in
  {| tool_name := name;
     description := description;
     metadata := Some (<[METADATA_KEY_HANDOFF_DESTINATION := VStr agent_name]> ∅);
     func := handoff_to_agent agent_name name |}.

End Handoff.

(** What a node of [agent.get_graph()] carries in [.data]: a [ToolNode]
    with its [tools_by_name] dictionary (iterated, so in insertion
    order), or some other runnable. *)
Inductive node_data : Type :=
  | ToolNode (tools_by_name : list (str * BaseTool))
  | OtherRunnable (label : str).

(** A compiled agent: its name and the nodes of its drawable graph. *)
Record CompiledStateGraph : Type := {
  name : str;
  graph_nodes : gmap str node_data
}.

(** The list comprehension at the end of [get_handoff_destinations]. *)
Fixpoint handoff_metadata (tools : list BaseTool) : result (list value) :=
  match tools with
  | [] => Ok []
  | tool :: tools' =>
      match metadata tool with
      | Some md =>
          if contains md METADATA_KEY_HANDOFF_DESTINATION
          then d <- getitem md METADATA_KEY_HANDOFF_DESTINATION ;;
               ds <- handoff_metadata tools' ;;
               Ok (d :: ds)
          else handoff_metadata tools'
      | None => handoff_metadata tools'
      end
  end.

Definition get_handoff_destinations (agent : CompiledStateGraph)
    (tool_node_name : str) : result (list value) :=
  let nodes := graph_nodes agent in
  if negb (contains nodes tool_node_name) then Ok [] else
  tool_node <- getitem nodes tool_node_name ;;
  match tool_node with
  | ToolNode tools_by_name =>
      let tools := map snd tools_by_name in
      handoff_metadata tools
  | OtherRunnable _ => Ok []
  end.

(** The default of the parameter [tool_node_name]. *)
Definition default_tool_node_name : str := lit "tools".

(** ** The graph builder

    [StateGraph] belongs to the framework.  This package reads a
    builder's channel table and calls [add_conditional_edges] and
    [add_node] on it; here a builder is its schema together with what
    those calls registered, in call order.  The framework refuses a
    branch whose name the source node already has, and a node whose
    name is taken, reserved or holds a reserved character; so that
    whatever is proved to succeed here succeeds on every release, a
    node named like a state key is refused too, as the releases that
    give each node a channel of its own name do. *)

(** A state-schema class: the keys of its [__annotations__], and the
    fields the framework finds in it ([typing.get_type_hints]) and turns
    into channels.  Both map a field name to the text of its type. *)
Record StateSchemaType : Type := {
  annotations : gmap str str;
  type_hints : gmap str str
}.

Record Branch : Type := {
  branch_name : str;                 (* the [__name__] of the path function *)
  path : gmap str value -> value;
  path_map : list str
}.

Record StateNodeSpec : Type := {
  runnable : CompiledStateGraph;
  destinations : list value
}.

Record StateGraph : Type := {
  schema : StateSchemaType;
  channels : gmap str str;           (* [schemas[schema]] *)
  nodes : list (str * StateNodeSpec);
  branches : list (str * Branch)     (* source node, branch *)
}.

Definition START : str := lit "__start__".
Definition END : str := lit "__end__".

(** The two characters reserved for name spaces: ["|"] and [":"]. *)
Definition NS_SEP : N := 124.
Definition NS_END : N := 58.

Module Store.

(** Builders are objects: a reference is an index into the store. *)
Definition ref : Type := nat.
Abbreviation store := (list StateGraph).

(** A computation may read and update the store and may raise; what it
    did to the store before raising stays done. *)
Definition M (A : Type) : Type := store -> result A * store.

Definition ret {A} (a : A) : M A := fun σ => (Ok a, σ).
Definition raise {A} (e : exn) : M A := fun σ => (Raise e, σ).
Definition lift {A} (r : result A) : M A := fun σ => (r, σ).

Definition bind {A B} (m : M A) (k : A -> M B) : M B :=
  fun σ =>
    match m σ with
    | (Ok a, σ') => k a σ'
    | (Raise e, σ') => (Raise e, σ')
    end.

(** Dereference; a reference that names no object cannot be written in
    Python, and is an error of its own here. *)
Definition read (b : ref) : M StateGraph :=
  fun σ =>
    match σ !! b with
    | Some g => (Ok g, σ)
    | None => (Raise ReferenceError, σ)
    end.

Definition write (b : ref) (g : StateGraph) : M unit :=
  fun σ => (Ok tt, <[b := g]> σ).

(** A [for] loop over a list, for its effects. *)
Fixpoint for_each {A} (l : list A) (body : A -> M unit) : M unit :=
  match l with
  | [] => ret tt
  | a :: l' => bind (body a) (fun _ => for_each l' body)
  end.

End Store.

Import Store.

Notation "x <~ e ;; k" := (Store.bind e (fun x => k))
  (at level 100, e at next level, right associativity, only parsing).

(** [StateGraph(state_schema)]: a fresh builder with no nodes and no
    branches. *)
Definition new_StateGraph (state_schema : StateSchemaType) : M ref :=
  fun σ =>
    (Ok (length σ),
     σ ++ [ {| schema := state_schema;
               channels := type_hints state_schema;
               nodes := [];
               branches := [] |} ]).

(** [name in self.branches[source]] *)
Definition has_branch (g : StateGraph) (source name : str) : bool :=
  bool_decide ((source, name) ∈ map (fun b => (fst b, branch_name (snd b))) (branches g)).

(** [builder.add_conditional_edges(source, path, path_map=...)], where
    [name] is the name of the function [path]. *)
Definition add_conditional_edges (builder : ref) (source : str)
    (name : str) (path : gmap str value -> value) (path_map : list str) : M unit :=
  g <~ read builder ;;
  if has_branch g source name
  then raise (ValueError (BranchAlreadyExists name source)) else
  write builder
    {| schema := schema g;
       channels := channels g;
       nodes := nodes g;
       branches := branches g ++
         [(source, {| branch_name := name; path := path; path_map := path_map |})] |}.

(** The checks of [add_node] on the name of the node, in order. *)
Definition node_refusal (g : StateGraph) (node : str) : option value_error :=
  if contains (channels g) node then Some (NodeIsStateKey node) else
  if bool_decide (node ∈ map fst (nodes g)) then Some (NodeAlreadyPresent node) else
  if bool_decide (node = END \/ node = START) then Some (NodeReserved node) else
  if bool_decide (NS_SEP ∈ node) then Some (ReservedCharacter NS_SEP node) else
  if bool_decide (NS_END ∈ node) then Some (ReservedCharacter NS_END node) else
  None.

(** [builder.add_node(name, agent, destinations=...)] *)
Definition add_node (builder : ref) (node : str) (agent : CompiledStateGraph)
    (destinations : list value) : M unit :=
  g <~ read builder ;;
  match node_refusal g node with Some why => raise (ValueError why) | None =>
  write builder
    {| schema := schema g;
       channels := channels g;
       nodes := nodes g ++ [(node, {| runnable := agent; destinations := destinations |})];
       branches := branches g |}
  end.

(** ** swarm.py *)

(** [class SwarmState(MessagesState)] with [active_agent: str]. *)
Definition SwarmState : StateSchemaType :=
  let fields : gmap str str :=
    <[lit "active_agent" := lit "str"]>
      (<[lit "messages" := lit "Annotated[list[AnyMessage], add_messages]"]> ∅) in
  {| annotations := fields; type_hints := fields |}.

(** The closure [route_to_active_agent]; it captures
    [default_active_agent]. *)
Definition route_to_active_agent (default_active_agent : str)
    (state : gmap str value) : value :=
  get state (lit "active_agent") (VStr default_active_agent).

Definition add_active_agent_router (builder : ref) (route_to : list str)
    (default_active_agent : str) : M ref :=
  g <~ read builder ;;
  let channels := channels g in
  if negb (contains channels (lit "active_agent"))
  then raise (ValueError BuilderMissingActiveAgent) else
  if negb (list_contains route_to default_active_agent)
  then raise (ValueError (DefaultNotInRoutes default_active_agent route_to)) else
  _ <~ add_conditional_edges builder START (lit "route_to_active_agent")
         (route_to_active_agent default_active_agent) route_to ;;
  ret builder.

Definition create_swarm (agents : list CompiledStateGraph)
    (default_active_agent : str) (state_schema : StateSchemaType) : M ref :=
  if negb (contains (annotations state_schema) (lit "active_agent"))
  then raise (ValueError SchemaMissingActiveAgent) else
  builder <~ new_StateGraph state_schema ;;
  _ <~ add_active_agent_router builder (map name agents) default_active_agent ;;
  _ <~ for_each agents (fun agent =>
         destinations <~ lift (get_handoff_destinations agent default_tool_node_name) ;;
         add_node builder (name agent) agent destinations) ;;
  ret builder.

(** ** The normalisation as the documentation words it

    "Strip leading and trailing whitespace, replace every maximal run of
    whitespace by one underscore, lowercase the result." *)

Module Spec.

(** The maximal runs of a string: consecutive characters of one class
    (whitespace or not), each run tagged with its class. *)
Fixpoint runs (s : str) : list (bool * str) :=
  match s with
  | [] => []
  | c :: s' =>
      match runs s' with
      | (b, blk) :: rest =>
          if Bool.eqb (isspace c) b
          then (b, c :: blk) :: rest
          else (isspace c, [c]) :: (b, blk) :: rest
      | [] => [(isspace c, [c])]
      end
  end.

(** Neighbouring runs differ in class. *)
Fixpoint alternating (rs : list (bool * str)) : Prop :=
  match rs with
  | r1 :: ((r2 :: _) as rs') => fst r1 <> fst r2 /\ alternating rs'
  | _ => True
  end.

Definition replace_run (r : bool * str) : str :=
  if fst r then lit "_" else snd r.

Definition collapse_runs (s : str) : str :=
  concat (map replace_run (runs s)).

(** [t] is [s] without its leading and trailing whitespace. *)
Definition stripped (s t : str) : Prop :=
  (exists l r, s = l ++ t ++ r
               /\ Forall (fun c => isspace c = true) l
               /\ Forall (fun c => isspace c = true) r)
  /\ (forall c, head t = Some c -> isspace c = false)
  /\ (forall c, last t = Some c -> isspace c = false).

Definition normalized `{CaseMapping} (agent_name : str) : str :=
  lower (collapse_runs (strip agent_name)).

End Spec.

(** ** Where the tools of a tool node come from

    A tool is either a handoff tool made by [create_handoff_tool] or
    some other tool. *)

Inductive tool_origin : Type :=
  | Handoff (agent_name : str) (description : option str)
  | Other (t : BaseTool).

Definition tool_of `{CaseMapping} (o : tool_origin) : BaseTool :=
  match o with
  | Handoff agent_name description => create_handoff_tool agent_name description
  | Other t => t
  end.

(** The agent names of the handoff tools, in order. *)
Fixpoint handoff_names (os : list tool_origin) : list str :=
  match os with
  | [] => []
  | Handoff agent_name _ :: os' => agent_name :: handoff_names os'
  | Other _ :: os' => handoff_names os'
  end.

(** A tool that does not carry the handoff key in its metadata. *)
Definition no_handoff_key (o : tool_origin) : Prop :=
  match o with
  | Handoff _ _ => True
  | Other t =>
      match metadata t with
      | Some md => md !! METADATA_KEY_HANDOFF_DESTINATION = None
      | None => True
      end
  end.

(** The builder [g] after one more branch has been registered on it. *)
Definition with_branch (g : StateGraph) (source : str)
    (path : gmap str value -> value) (path_map : list str) : StateGraph :=
  {| schema := schema g;
     channels := channels g;
     nodes := nodes g;
     branches := branches g ++
       [(source, {| branch_name := lit "route_to_active_agent";
                    path := path; path_map := path_map |})] |}.

(** The node that [create_swarm] registers for an agent. *)
Definition handoff_destinations (agent : CompiledStateGraph) : list value :=
  match get_handoff_destinations agent default_tool_node_name with
  | Ok ds => ds
  | Raise _ => []
  end.

Definition node_of (agent : CompiledStateGraph) : str * StateNodeSpec :=
  (name agent, {| runnable := agent; destinations := handoff_destinations agent |}).

Definition with_nodes (g : StateGraph) (ns : list (str * StateNodeSpec)) : StateGraph :=
  {| schema := schema g;
     channels := channels g;
     nodes := nodes g ++ ns;
     branches := branches g |}.

(** ** Words for statements about whitespace *)

Definition all_space (s : str) : Prop := Forall (fun c => isspace c = true) s.
Definition no_space (s : str) : Prop := Forall (fun c => isspace c = false) s.

(** [s] has a character that is not whitespace. *)
Definition has_word (s : str) : Prop := Exists (fun c => isspace c = false) s.

(** [s] starts with whitespace. *)
Definition head_space (s : str) : bool :=
  match s with
  | c :: _ => isspace c
  | [] => false
  end.

(** A name that the builder accepts for a node when it is not taken:
    not a state key, not reserved, without a reserved character. *)
Definition plain_node_name (state_keys : gmap str str) (node : str) : Prop :=
  state_keys !! node = None
  /\ node <> END /\ node <> START
  /\ (NS_SEP ∉ node) /\ (NS_END ∉ node).

(** What the loop of [create_swarm] does to a builder: the first name
    refused, if any, and the builder with the nodes registered until
    then. *)
Fixpoint register_all (g : StateGraph) (agents : list CompiledStateGraph)
  : option value_error * StateGraph :=
  match agents with
  | [] => (None, g)
  | agent :: agents' =>
      match node_refusal g (name agent) with
      | Some why => (Some why, g)
      | None => register_all (with_nodes g [node_of agent]) agents'
      end
  end.

(** The builder that [StateGraph(state_schema)] makes. *)
Definition empty_graph (state_schema : StateSchemaType) : StateGraph :=
  {| schema := state_schema;
     channels := type_hints state_schema;
     nodes := [];
     branches := [] |}.

(** The handoff destination a tool declares, if it declares one. *)
Definition declared_destination (tool : BaseTool) : option value :=
  md ← metadata tool; md !! METADATA_KEY_HANDOFF_DESTINATION.

(** ** A small swarm to run the definitions on

    Two agents, each with a tool node holding a handoff tool to the
    other next to an ordinary tool. *)

Module Sample.

Definition alice : str := lit "Alice".
Definition bob : str := lit " Bob  the Builder ".

Definition to_alice : BaseTool := @create_handoff_tool ascii_case alice None.
Definition to_bob : BaseTool :=
  @create_handoff_tool ascii_case bob (Some (lit "ask Bob")).

Definition search : BaseTool :=
  {| tool_name := lit "search";
     description := lit "look something up";
     metadata := None;
     func := fun _ _ => Raise TypeError |}.

Definition alice_agent : CompiledStateGraph :=
  {| name := alice;
     graph_nodes :=
       <[lit "tools" := ToolNode [(tool_name search, search); (tool_name to_bob, to_bob)]]>
         (<[lit "agent" := OtherRunnable (lit "model")]> ∅) |}.

Definition bob_agent : CompiledStateGraph :=
  {| name := bob;
     graph_nodes :=
       <[lit "tools" := ToolNode [(tool_name to_alice, to_alice)]]>
         (<[lit "agent" := OtherRunnable (lit "model")]> ∅) |}.

(** An agent without tools. *)
Definition carol_agent : CompiledStateGraph :=
  {| name := lit "carol";
     graph_nodes := <[lit "agent" := OtherRunnable (lit "model")]> ∅ |}.

Definition log : list value :=
  [VMsg (ChatMessage (lit "human") (lit "hello"));
   VMsg (ChatMessage (lit "ai") (lit "one moment"))].

Definition state : gmap str value :=
  <[lit "messages" := VList log]> ∅.

Definition state_with_bob : gmap str value :=
  <[lit "active_agent" := VStr bob]> state.

(** A fresh builder for [SwarmState], and one for a schema that only
    has ["messages"]. *)
Definition swarm_builder : StateGraph :=
  {| schema := SwarmState; channels := type_hints SwarmState;
     nodes := []; branches := [] |}.

Definition MessagesState : StateSchemaType :=
  let fields : gmap str str :=
    <[lit "messages" := lit "Annotated[list[AnyMessage], add_messages]"]> ∅ in
  {| annotations := fields; type_hints := fields |}.

Definition messages_builder : StateGraph :=
  {| schema := MessagesState; channels := type_hints MessagesState;
     nodes := []; branches := [] |}.

End Sample.

(** ** One handoff and one installation, worked out *)

Module Walk.

(** What [Sample.to_bob] returns on [Sample.state] for call ["call_7"]. *)
Definition bob_command : Command :=
  {| goto := Sample.bob;
     graph := PARENT;
     update :=
       <[lit "active_agent" := VStr Sample.bob]>
         (<[lit "messages" :=
              VList (Sample.log ++
                [VMsg (ToolMessage (handoff_message_prefix ++ Sample.bob)
                         (tool_name Sample.to_bob) (lit "call_7"))])]> ∅) |}.

(** A tool that declares a destination without being a handoff tool. *)
Definition escalate : BaseTool :=
  {| tool_name := lit "escalate";
     description := lit "call a human";
     metadata := Some (<[METADATA_KEY_HANDOFF_DESTINATION := VStr (lit "human")]> ∅);
     func := fun _ _ => Raise TypeError |}.

Definition dave_agent : CompiledStateGraph :=
  {| name := lit "dave";
     graph_nodes :=
       <[lit "tools" :=
           ToolNode [(lit "a", Sample.search); (lit "b", escalate);
                     (lit "c", Sample.to_alice)]]> ∅ |}.

(** Two builders in one store, and the store after the router has been
    installed on the first. *)
Definition two_builders : store :=
  [Sample.swarm_builder; Sample.messages_builder].

Definition two_builders_routed : store :=
  [with_branch Sample.swarm_builder START
     (route_to_active_agent Sample.alice) [Sample.alice; Sample.bob];
   Sample.messages_builder].

Definition team : list CompiledStateGraph :=
  [Sample.alice_agent; Sample.bob_agent].

End Walk.

(** * Properties *)

(** ** Whitespace runs and [re.sub] *)

Section Runs.

Lemma runs_cons_class c s :
  exists blk rest, Spec.runs (c :: s) = (isspace c, blk) :: rest.
Proof.
  simpl. destruct (Spec.runs s) as [|[b blk] rest]; [by eauto|].
  destruct (Bool.eqb (isspace c) b) eqn:E; [|by eauto].
  apply Bool.eqb_prop in E. subst b. eauto.
Qed.

Lemma collapse_cons_other c s :
  isspace c = false -> Spec.collapse_runs (c :: s) = c :: Spec.collapse_runs s.
Proof.
  intros Hc. unfold Spec.collapse_runs. simpl.
  destruct (Spec.runs s) as [|[b blk] rest]; simpl.
  - unfold Spec.replace_run. simpl. by rewrite Hc.
  - rewrite Hc. destruct b; simpl; unfold Spec.replace_run; simpl; by rewrite ?Hc.
Qed.

Lemma collapse_cons_space_end c :
  isspace c = true -> Spec.collapse_runs [c] = lit "_".
Proof.
  intros Hc. unfold Spec.collapse_runs, Spec.replace_run. simpl. by rewrite Hc.
Qed.

Lemma collapse_cons_space_space c d s :
  isspace c = true -> isspace d = true ->
  Spec.collapse_runs (c :: d :: s) = Spec.collapse_runs (d :: s).
Proof.
  intros Hc Hd. destruct (runs_cons_class d s) as (blk & rest & E).
  unfold Spec.collapse_runs. change (Spec.runs (c :: d :: s)) with
    (match Spec.runs (d :: s) with
     | (b, blk) :: rest =>
         if Bool.eqb (isspace c) b then (b, c :: blk) :: rest
         else (isspace c, [c]) :: (b, blk) :: rest
     | [] => [(isspace c, [c])]
     end).
  rewrite E, Hc, Hd. simpl. done.
Qed.

Lemma collapse_cons_space_other c d s :
  isspace c = true -> isspace d = false ->
  Spec.collapse_runs (c :: d :: s) = lit "_" ++ Spec.collapse_runs (d :: s).
Proof.
  intros Hc Hd. destruct (runs_cons_class d s) as (blk & rest & E).
  unfold Spec.collapse_runs. change (Spec.runs (c :: d :: s)) with
    (match Spec.runs (d :: s) with
     | (b, blk) :: rest =>
         if Bool.eqb (isspace c) b then (b, c :: blk) :: rest
         else (isspace c, [c]) :: (b, blk) :: rest
     | [] => [(isspace c, [c])]
     end).
  rewrite E, Hc, Hd. simpl. unfold Spec.replace_run at 1. simpl. done.
Qed.

(** After a greedy match the rest is no longer than the input and does
    not start with whitespace. *)
Lemma span_space_length s m r :
  Re.span_space s = (m, r) -> length r <= length s.
Proof.
  revert m r. induction s as [|c s IH]; simpl; intros m r E.
  - by inversion E.
  - destruct (isspace c).
    + destruct (Re.span_space s) as [m' r'] eqn:E'. inversion E; subst.
      specialize (IH _ _ eq_refl). lia.
    + inversion E; subst. simpl. lia.
Qed.

Lemma collapse_span c s m r :
  isspace c = true -> Re.span_space s = (m, r) ->
  Spec.collapse_runs (c :: s) = lit "_" ++ Spec.collapse_runs r.
Proof.
  revert c m r. induction s as [|d s IH]; simpl; intros c m r Hc E.
  - inversion E; subst. by rewrite collapse_cons_space_end.
  - destruct (isspace d) eqn:Hd.
    + destruct (Re.span_space s) as [m' r'] eqn:E'. inversion E; subst.
      rewrite collapse_cons_space_space by done. by eapply IH.
    + inversion E; subst. by apply collapse_cons_space_other.
Qed.

Lemma sub_loop_collapse fuel s :
  length s <= fuel -> Re.sub_loop fuel (lit "_") s = Spec.collapse_runs s.
Proof.
  revert s. induction fuel as [|fuel IH]; intros [|c s] Hlen; simpl in *;
    try done; try lia.
  unfold Re.match_here. simpl.
  destruct (isspace c) eqn:Hc.
  - destruct (Re.span_space s) as [m r] eqn:E.
    rewrite IH by (apply span_space_length in E; lia).
    symmetry. by eapply collapse_span.
  - rewrite IH by lia. by rewrite collapse_cons_other.
Qed.

(** The fuel of [Re.sub] is enough: more of it changes nothing. *)
Lemma sub_loop_enough fuel s :
  length s <= fuel -> Re.sub_loop fuel (lit "_") s = Re.sub (lit "_") s.
Proof.
  intros Hlen. unfold Re.sub. by rewrite !sub_loop_collapse.
Qed.

Lemma sub_collapse s : Re.sub (lit "_") s = Spec.collapse_runs s.
Proof. by apply sub_loop_collapse. Qed.

End Runs.

(** [Spec.runs] does cut a string into its maximal runs: the runs
    concatenate to the string, each is non-empty and of one class, and
    neighbouring runs differ in class. *)

Lemma runs_concat s : concat (map snd (Spec.runs s)) = s.
Proof.
  induction s as [|c s IH]; simpl; [done|].
  destruct (Spec.runs s) as [|[b blk] rest]; simpl in *.
  - by rewrite <- IH.
  - destruct (Bool.eqb (isspace c) b); simpl; by rewrite IH.
Qed.

Lemma runs_uniform s :
  Forall (fun r => snd r <> [] /\ Forall (fun c => isspace c = fst r) (snd r))
         (Spec.runs s).
Proof.
  induction s as [|c s IH]; simpl; [by constructor|].
  destruct (Spec.runs s) as [|[b blk] rest]; simpl in *.
  - repeat constructor; done.
  - inversion IH as [|? ? [Hne Hall] Hrest]; subst; simpl in *.
    destruct (Bool.eqb (isspace c) b) eqn:E.
    + apply Bool.eqb_prop in E. constructor; [|done]. simpl. split; [done|].
      by constructor.
    + constructor; [|by constructor]. simpl. repeat constructor; done.
Qed.

Lemma runs_alternating s : Spec.alternating (Spec.runs s).
Proof.
  induction s as [|c s IH]; simpl; [done|].
  destruct (Spec.runs s) as [|[b blk] rest]; simpl in *; [done|].
  destruct (Bool.eqb (isspace c) b) eqn:E; simpl.
  - destruct rest; [done|]. done.
  - split; [|done]. intros Heq. rewrite Heq in E. by rewrite Bool.eqb_reflx in E.
Qed.

(** ** [strip] *)

Section Strip.

Lemma drop_while_split p s :
  exists l, s = l ++ drop_while p s /\ Forall (fun c => p c = true) l.
Proof.
  induction s as [|c s (l & Hs & Hl)]; simpl.
  - by exists [].
  - destruct (p c) eqn:Hc.
    + exists (c :: l). split; [by rewrite Hs at 1|by constructor].
    + by exists [].
Qed.

Lemma drop_while_head p s c :
  head (drop_while p s) = Some c -> p c = false.
Proof.
  induction s as [|d s IH]; simpl; [done|].
  destruct (p d) eqn:Hd; [done|]. simpl. by intros [= <-].
Qed.

Lemma head_app_nonempty (a b : str) c : head a = Some c -> head (a ++ b) = Some c.
Proof. by destruct a. Qed.

Lemma strip_stripped s : Spec.stripped s (strip s).
Proof.
  unfold strip, rstrip, lstrip.
  destruct (drop_while_split isspace s) as (l & Hs & Hl).
  set (t := drop_while isspace s) in *.
  destruct (drop_while_split isspace (rev t)) as (r & Ht & Hr).
  set (u := drop_while isspace (rev t)) in *.
  assert (Htu : t = rev u ++ rev r).
  { rewrite <- (rev_involutive t), Ht. by rewrite rev_app_distr. }
  split; [|split].
  - exists l, (rev r). split; [by rewrite <- Htu|]. split; [done|].
    apply Forall_forall. intros c Hc. rewrite Forall_forall in Hr.
    apply Hr. apply list_elem_of_In. apply list_elem_of_In in Hc.
    by apply in_rev.
  - intros c Hc. apply (drop_while_head isspace s c). fold t.
    rewrite Htu. by apply head_app_nonempty.
  - intros c Hc. apply (drop_while_head isspace (rev t) c). fold u.
    rewrite <- Hc. clear. destruct u as [|a u]; simpl; [done|].
    by rewrite last_snoc.
Qed.

End Strip.

(** ** Dictionary reads *)

Section Dict.
Context {V : Type}.
Implicit Types (d : gmap str V) (k : str).

Lemma contains_true d k : contains d k = true <-> is_Some (d !! k).
Proof. unfold contains. apply bool_decide_eq_true. Qed.

Lemma contains_false d k : contains d k = false <-> d !! k = None.
Proof.
  unfold contains. rewrite bool_decide_eq_false. by rewrite eq_None_not_Some.
Qed.

Lemma getitem_contains d k : contains d k = true -> exists v, getitem d k = Ok v.
Proof.
  intros [v Hv]%contains_true. exists v. unfold getitem. by rewrite Hv.
Qed.

End Dict.

Lemma key_active_agent_messages : lit "active_agent" <> lit "messages".
Proof. by vm_compute. Qed.

(** ** The handoff tool *)

Section HandoffTool.
Context `{CaseMapping}.

Lemma invoke_create_handoff_tool agent_name description state tool_call_id :
  invoke (create_handoff_tool agent_name description) state tool_call_id
  = handoff_to_agent agent_name
      (tool_name (create_handoff_tool agent_name description)) state tool_call_id.
Proof. reflexivity. Qed.

(** The handoff function returns exactly when the state has a list
    under ["messages"]; the command it returns is then determined. *)
Lemma handoff_to_agent_ok agent_name name state tool_call_id (messages : list value) :
  state !! lit "messages" = Some (VList messages) ->
  handoff_to_agent agent_name name state tool_call_id
  = Ok {| goto := agent_name;
          graph := PARENT;
          update :=
            <[lit "active_agent" := VStr agent_name]>
              (<[lit "messages" :=
                   VList (messages ++
                     [VMsg (ToolMessage (handoff_message_prefix ++ agent_name)
                                        name tool_call_id)])]> ∅) |}.
Proof.
  intros Hm. unfold handoff_to_agent, getitem. rewrite Hm. reflexivity.
Qed.

Lemma handoff_to_agent_inv agent_name name state tool_call_id cmd :
  handoff_to_agent agent_name name state tool_call_id = Ok cmd ->
  exists v messages',
    state !! lit "messages" = Some v
    /\ add_list v [VMsg (ToolMessage (handoff_message_prefix ++ agent_name)
                           name tool_call_id)] = Ok messages'
    /\ cmd = {| goto := agent_name;
                graph := PARENT;
                update := <[lit "active_agent" := VStr agent_name]>
                            (<[lit "messages" := messages']> ∅) |}.
Proof.
  unfold handoff_to_agent, getitem.
  destruct (state !! lit "messages") as [v|]; [|done]. cbn [Py.bind].
  destruct (add_list v _) as [messages'|e] eqn:Hadd; [|done]. cbn [Py.bind].
  intros [= <-]. eauto.
Qed.

(** C1: invoking the tool made by [create_handoff_tool] on a state whose
    ["messages"] entry is a list returns a command whose [goto] is the
    agent name and whose updated ["messages"] is that list followed by
    one tool message, nothing else added, removed or moved. *)
Theorem handoff_goto_and_one_message
    (agent_name : str) (description : option str)
    (state : gmap str value) (messages : list value) (tool_call_id : str) :
  state !! lit "messages" = Some (VList messages) ->
  exists cmd,
    invoke (create_handoff_tool agent_name description) state tool_call_id = Ok cmd
    /\ goto cmd = agent_name
    /\ update cmd !! lit "messages"
       = Some (VList (messages ++
           [VMsg (ToolMessage (handoff_message_prefix ++ agent_name)
                    (tool_name (create_handoff_tool agent_name description))
                    tool_call_id)])).
Proof.
  intros Hm. rewrite invoke_create_handoff_tool.
  rewrite (handoff_to_agent_ok _ _ _ _ _ Hm).
  eexists. split; [reflexivity|]. split; [reflexivity|]. simpl.
  rewrite lookup_insert_ne by apply key_active_agent_messages.
  by rewrite lookup_insert_eq.
Qed.

(** C5: whatever the state and the tool-call id, a command returned by
    the tool sets ["active_agent"] to the agent name as it was given to
    the factory, not to its normalised form; and the tool does return
    a command whenever the state holds a list of messages. *)
Theorem handoff_sets_active_agent
    (agent_name : str) (description : option str)
    (state : gmap str value) (tool_call_id : str) :
  (forall cmd,
      invoke (create_handoff_tool agent_name description) state tool_call_id = Ok cmd ->
      update cmd !! lit "active_agent" = Some (VStr agent_name))
  /\ (forall messages,
      state !! lit "messages" = Some (VList messages) ->
      exists cmd,
        invoke (create_handoff_tool agent_name description) state tool_call_id = Ok cmd).
Proof.
  split.
  - intros cmd Hcmd. rewrite invoke_create_handoff_tool in Hcmd.
    destruct (handoff_to_agent_inv _ _ _ _ _ Hcmd) as (v & messages' & _ & _ & ->).
    cbn [update]. by rewrite lookup_insert_eq.
  - intros messages Hm. rewrite invoke_create_handoff_tool.
    rewrite (handoff_to_agent_ok _ _ _ _ _ Hm). eauto.
Qed.

(** C4: the tool is named ["transfer_to_"] followed by the normalised
    agent name, and the normalisation of the code is the documented one:
    the name without its leading and trailing whitespace, each maximal
    run of whitespace replaced by one underscore, then lowercased.  The
    name depends on the agent name alone. *)
Theorem handoff_tool_name
    (agent_name : str) (description description' : option str) :
  tool_name (create_handoff_tool agent_name description)
  = lit "transfer_to_" ++ Spec.normalized agent_name
  /\ Spec.stripped agent_name (strip agent_name)
  /\ tool_name (create_handoff_tool agent_name description)
     = tool_name (create_handoff_tool agent_name description').
Proof.
  split; [|split].
  - unfold create_handoff_tool, _normalize_agent_name, Spec.normalized. simpl.
    by rewrite sub_collapse.
  - apply strip_stripped.
  - reflexivity.
Qed.

End HandoffTool.

(** ** Handoff destinations *)

Section Destinations.
Context `{CaseMapping}.

Lemma handoff_tool_metadata agent_name description :
  metadata (create_handoff_tool agent_name description)
  = Some (<[METADATA_KEY_HANDOFF_DESTINATION := VStr agent_name]> ∅).
Proof. reflexivity. Qed.

(** The comprehension never raises: the key is read only where the
    membership test has found it. *)
Lemma handoff_metadata_total tools : exists ds, handoff_metadata tools = Ok ds.
Proof.
  induction tools as [|tool tools [ds IH]]; simpl; [by eauto|].
  destruct (metadata tool) as [md|]; [|by eauto].
  destruct (contains md METADATA_KEY_HANDOFF_DESTINATION) eqn:E; [|by eauto].
  destruct (getitem_contains _ _ E) as [v ->]. simpl. rewrite IH. simpl. eauto.
Qed.

Lemma handoff_metadata_origins (os : list tool_origin) :
  Forall no_handoff_key os ->
  handoff_metadata (map tool_of os) = Ok (map VStr (handoff_names os)).
Proof.
  induction os as [|o os IH]; intros Hos; simpl; [done|].
  inversion Hos as [|? ? Ho Hos']; subst. specialize (IH Hos').
  destruct o as [agent_name description|t]; simpl.
  - unfold contains, getitem. rewrite lookup_insert_eq. simpl. by rewrite IH.
  - simpl in Ho. destruct (metadata t) as [md|]; [|done].
    apply contains_false in Ho. by rewrite Ho.
Qed.

Lemma get_handoff_destinations_ok agent tool_node_name :
  exists ds, get_handoff_destinations agent tool_node_name = Ok ds.
Proof.
  unfold get_handoff_destinations.
  destruct (contains (graph_nodes agent) tool_node_name) eqn:E; simpl; [|by eauto].
  destruct (getitem_contains _ _ E) as [[tools|label] ->]; simpl; [|by eauto].
  apply handoff_metadata_total.
Qed.

(** C9: [get_handoff_destinations] returns on every compiled graph, and
    returns the empty list when the graph has no node of the given name
    or when that node does not hold a [ToolNode]. *)
Theorem get_handoff_destinations_total
    (agent : CompiledStateGraph) (tool_node_name : str) :
  (exists ds, get_handoff_destinations agent tool_node_name = Ok ds)
  /\ (graph_nodes agent !! tool_node_name = None ->
      get_handoff_destinations agent tool_node_name = Ok [])
  /\ (forall label,
      graph_nodes agent !! tool_node_name = Some (OtherRunnable label) ->
      get_handoff_destinations agent tool_node_name = Ok []).
Proof.
  split; [apply get_handoff_destinations_ok|].
  unfold get_handoff_destinations. split.
  - intros Hn. apply contains_false in Hn. by rewrite Hn.
  - intros label Hn. unfold contains, getitem. by rewrite Hn.
Qed.

(** C8: a handoff tool carries its agent name, as given, under the
    handoff key of its metadata; so when the tool node of a graph holds
    handoff tools for [A1 .. An], among tools without that key, the
    destinations read back are [A1 .. An], in that order. *)
Theorem handoff_destinations_roundtrip
    (agent : CompiledStateGraph) (tool_node_name : str)
    (tools_by_name : list (str * BaseTool)) (origins : list tool_origin) :
  graph_nodes agent !! tool_node_name = Some (ToolNode tools_by_name) ->
  map snd tools_by_name = map tool_of origins ->
  Forall no_handoff_key origins ->
  (forall agent_name description,
      exists md,
        metadata (create_handoff_tool agent_name description) = Some md
        /\ md !! METADATA_KEY_HANDOFF_DESTINATION = Some (VStr agent_name))
  /\ get_handoff_destinations agent tool_node_name
     = Ok (map VStr (handoff_names origins)).
Proof.
  intros Hn Htools Hos. split.
  - intros agent_name description. eexists. split; [apply handoff_tool_metadata|].
    by rewrite lookup_insert_eq.
  - unfold get_handoff_destinations, contains, getitem. rewrite Hn. simpl.
    rewrite Htools. by apply handoff_metadata_origins.
Qed.

End Destinations.

(** ** The active-agent router *)

Section Router.
Implicit Types (σ : store) (builder : ref) (g : StateGraph).

(** The four ways through [add_active_agent_router]: its two checks,
    the framework refusing the branch, and the installation. *)
Lemma add_active_agent_router_run σ builder g route_to default_active_agent :
  σ !! builder = Some g ->
  add_active_agent_router builder route_to default_active_agent σ
  = if negb (contains (channels g) (lit "active_agent"))
    then (Raise (ValueError BuilderMissingActiveAgent), σ)
    else if negb (list_contains route_to default_active_agent)
    then (Raise (ValueError (DefaultNotInRoutes default_active_agent route_to)), σ)
    else if has_branch g START (lit "route_to_active_agent")
    then (Raise (ValueError
                   (BranchAlreadyExists (lit "route_to_active_agent") START)), σ)
    else (Ok builder,
          <[builder := with_branch g START
                         (route_to_active_agent default_active_agent) route_to]> σ).
Proof.
  intros Hb. unfold add_active_agent_router, Store.bind, read. rewrite Hb.
  destruct (negb (contains (channels g) (lit "active_agent"))); [done|].
  destruct (negb (list_contains route_to default_active_agent)); [done|].
  unfold add_conditional_edges, Store.bind, read, write. rewrite Hb.
  by destruct (has_branch g START (lit "route_to_active_agent")).
Qed.

Lemma list_contains_true (l : list str) x : list_contains l x = true <-> x ∈ l.
Proof. unfold list_contains. apply bool_decide_eq_true. Qed.

Lemma list_contains_false (l : list str) x : list_contains l x = false <-> x ∉ l.
Proof. unfold list_contains. apply bool_decide_eq_false. Qed.

(** C2: the routing function that [add_active_agent_router] installs on
    the entry edge returns, on any state, the value under
    ["active_agent"] when the state has that key and the default agent
    otherwise.  Whenever the call returns, it returns the same builder
    with that function as a new branch of the entry node; and it does
    return when the channels have ["active_agent"], the default is
    among the routes and the entry node has no branch of the router's
    name yet. *)
Theorem installed_router_reads_active_agent
    σ builder g (route_to : list str) (default_active_agent : str) :
  σ !! builder = Some g ->
  (forall builder' σ',
      add_active_agent_router builder route_to default_active_agent σ
      = (Ok builder', σ') ->
      exists g' router,
        builder' = builder
        /\ σ' = <[builder := g']> σ
        /\ branches g' = branches g ++ [(START, router)]
        /\ forall state : gmap str value,
             path router state
             = match state !! lit "active_agent" with
               | Some active => active
               | None => VStr default_active_agent
               end)
  /\ (is_Some (channels g !! lit "active_agent") ->
      default_active_agent ∈ route_to ->
      has_branch g START (lit "route_to_active_agent") = false ->
      exists σ',
        add_active_agent_router builder route_to default_active_agent σ
        = (Ok builder, σ')).
Proof.
  intros Hb. rewrite (add_active_agent_router_run _ _ _ _ _ Hb). split.
  - destruct (negb (contains (channels g) (lit "active_agent"))); [done|].
    destruct (negb (list_contains route_to default_active_agent)); [done|].
    destruct (has_branch g START (lit "route_to_active_agent")); [done|].
    intros builder' σ' [= <- <-].
    eexists _, _. split; [done|]. split; [done|]. split; [reflexivity|]. done.
  - intros Hch%contains_true Hdef%list_contains_true Hfresh.
    rewrite Hch, Hdef, Hfresh. simpl. eauto.
Qed.

(** C3, as the code has it: on a builder of the store,
    [add_active_agent_router] raises [ValueError] exactly when the
    builder's channels lack ["active_agent"], or the default agent is
    not in [route_to], or the entry node already has a branch of the
    router's name, which the framework refuses; otherwise it raises
    nothing and returns the same builder, on which the router is now
    registered as a branch of the entry node. *)
Theorem add_active_agent_router_raises_iff
    σ builder g (route_to : list str) (default_active_agent : str) :
  σ !! builder = Some g ->
  ((exists why σ',
       add_active_agent_router builder route_to default_active_agent σ
       = (Raise (ValueError why), σ'))
   <-> (channels g !! lit "active_agent" = None
        \/ default_active_agent ∉ route_to
        \/ has_branch g START (lit "route_to_active_agent") = true))
  /\ (~ (channels g !! lit "active_agent" = None
         \/ default_active_agent ∉ route_to
         \/ has_branch g START (lit "route_to_active_agent") = true) ->
      add_active_agent_router builder route_to default_active_agent σ
      = (Ok builder,
         <[builder := with_branch g START
                        (route_to_active_agent default_active_agent) route_to]> σ)).
Proof.
  intros Hb. rewrite (add_active_agent_router_run _ _ _ _ _ Hb).
  destruct (contains (channels g) (lit "active_agent")) eqn:Hch; simpl.
  2:{ apply contains_false in Hch. split.
      - split; [by left|by eauto].
      - intros Hno. destruct Hno. by left. }
  destruct (list_contains route_to default_active_agent) eqn:Hdef; simpl.
  2:{ apply list_contains_false in Hdef. split.
      - split; [by right; left|by eauto].
      - intros Hno. destruct Hno. by right; left. }
  destruct (has_branch g START (lit "route_to_active_agent")) eqn:Hbr.
  { split.
    - split; [by right; right|by eauto].
    - intros Hno. destruct Hno. by right; right. }
  apply contains_true in Hch as [c Hc]. apply list_contains_true in Hdef.
  split; [|done]. split.
  - by intros (why & σ' & [=]).
  - intros [Hnone | [Hnot | Hhas]]; [congruence|done|done].
Qed.

(** C10: when [add_active_agent_router] raises [ValueError], the store
    is as it was: the builder has no new branch and no other change,
    the two checks having come before the one call that mutates it. *)
Theorem add_active_agent_router_atomic
    σ σ' builder (route_to : list str) (default_active_agent : str) why :
  add_active_agent_router builder route_to default_active_agent σ
  = (Raise (ValueError why), σ') ->
  σ' = σ /\ σ' !! builder = σ !! builder.
Proof.
  intros Hrun. cut (σ' = σ); [by intros ->|].
  destruct (σ !! builder) as [g|] eqn:Hb.
  - rewrite (add_active_agent_router_run _ _ _ _ _ Hb) in Hrun.
    destruct (negb (contains (channels g) (lit "active_agent"))); [by inversion Hrun|].
    destruct (negb (list_contains route_to default_active_agent)); [by inversion Hrun|].
    destruct (has_branch g START (lit "route_to_active_agent")); by inversion Hrun.
  - unfold add_active_agent_router, Store.bind, read in Hrun. rewrite Hb in Hrun.
    by inversion Hrun.
Qed.

End Router.

(** ** The swarm *)

Section Swarm.
Implicit Types (σ : store) (builder : ref) (g : StateGraph).

Lemma get_handoff_destinations_default agent :
  get_handoff_destinations agent default_tool_node_name
  = Ok (handoff_destinations agent).
Proof.
  unfold handoff_destinations.
  by destruct (get_handoff_destinations_ok agent default_tool_node_name) as [ds ->].
Qed.

Lemma with_nodes_nil g : with_nodes g [] = g.
Proof. destruct g. unfold with_nodes. simpl. by rewrite app_nil_r. Qed.

Lemma with_nodes_app g ns ns' :
  with_nodes (with_nodes g ns) ns' = with_nodes g (ns ++ ns').
Proof. unfold with_nodes. simpl. by rewrite app_assoc. Qed.

Lemma with_nodes_one_names g agent node :
  node ∈ map fst (nodes (with_nodes g [node_of agent]))
  <-> node ∈ map fst (nodes g) \/ node = name agent.
Proof.
  unfold with_nodes, node_of. cbn [nodes]. rewrite map_app. cbn [map fst].
  by rewrite elem_of_app, list_elem_of_singleton.
Qed.

(** A name is accepted for a node exactly when it is plain and not
    taken. *)
Lemma node_refusal_None g node :
  node_refusal g node = None
  <-> (node ∉ map fst (nodes g)) /\ plain_node_name (channels g) node.
Proof.
  unfold node_refusal, plain_node_name.
  destruct (contains (channels g) node) eqn:Hc.
  { apply contains_true in Hc as [c Hc]. split; [done|].
    intros (_ & Hn & _). congruence. }
  apply contains_false in Hc.
  repeat case_bool_decide; split; try done; try tauto.
  all: intros (Hfree & _ & Hend & Hstart & Hsep & Hns); tauto.
Qed.

Lemma add_node_run σ builder g node agent ds :
  σ !! builder = Some g ->
  add_node builder node agent ds σ
  = match node_refusal g node with
    | Some why => (Raise (ValueError why), σ)
    | None =>
        (Ok tt,
         <[builder := with_nodes g
                        [(node, {| runnable := agent; destinations := ds |})]]> σ)
    end.
Proof.
  intros Hb. unfold add_node, Store.bind, read, write. rewrite Hb.
  by destruct (node_refusal g node).
Qed.

(** The loop of [create_swarm] registers the agents in order and stops
    at the first name that is refused. *)
Lemma add_nodes_loop agents : forall σ builder g,
  σ !! builder = Some g ->
  for_each agents (fun agent =>
    destinations <~ lift (get_handoff_destinations agent default_tool_node_name) ;;
    add_node builder (name agent) agent destinations) σ
  = (match fst (register_all g agents) with
     | Some why => Raise (ValueError why)
     | None => Ok tt
     end,
     <[builder := snd (register_all g agents)]> σ).
Proof.
  induction agents as [|agent agents IH]; intros σ builder g Hb;
    cbn [for_each register_all].
  - unfold ret. cbn [fst snd]. by rewrite list_insert_id.
  - unfold Store.bind at 1. unfold Store.bind at 1. unfold lift.
    rewrite get_handoff_destinations_default.
    rewrite (add_node_run _ _ _ _ _ _ Hb). fold (node_of agent).
    destruct (node_refusal g (name agent)) as [why|].
    + cbn [fst snd]. by rewrite list_insert_id.
    + rewrite (IH _ _ (with_nodes g [node_of agent])).
      * by rewrite list_insert_insert_eq.
      * apply list_lookup_insert_eq. by eapply lookup_lt_Some.
Qed.

(** Distinct plain names that are not taken are all accepted. *)
Lemma register_all_accepts agents : forall g,
  NoDup (map name agents) ->
  Forall (fun agent => (name agent ∉ map fst (nodes g))
                       /\ plain_node_name (channels g) (name agent)) agents ->
  register_all g agents = (None, with_nodes g (map node_of agents)).
Proof.
  induction agents as [|agent agents IH]; intros g Hnd Hall; cbn [register_all map].
  - by rewrite with_nodes_nil.
  - inversion Hnd as [|? ? Hfresh Hnd']; subst.
    inversion Hall as [|? ? [Hfree Hplain] Hall']; subst.
    rewrite (proj2 (node_refusal_None g (name agent))) by done.
    rewrite IH; [by rewrite with_nodes_app|done|].
    rewrite Forall_forall in Hall'. apply Forall_forall. intros a Ha.
    destruct (Hall' a Ha) as [Hfree' Hplain']. split; [|done].
    intros [Hin | Hin]%with_nodes_one_names; [done|].
    apply Hfresh. rewrite <- Hin. by apply (list_elem_of_fmap_2 name).
Qed.

(** And when all are accepted, the names were distinct, plain and not
    taken. *)
Lemma register_all_accepted agents : forall g,
  fst (register_all g agents) = None ->
  snd (register_all g agents) = with_nodes g (map node_of agents)
  /\ NoDup (map name agents)
  /\ Forall (fun agent => (name agent ∉ map fst (nodes g))
                          /\ plain_node_name (channels g) (name agent)) agents.
Proof.
  induction agents as [|agent agents IH]; intros g; cbn [register_all map].
  - intros _. rewrite with_nodes_nil. split; [done|]. split; constructor.
  - destruct (node_refusal g (name agent)) as [why|] eqn:Hr; [done|].
    apply node_refusal_None in Hr as [Hfree Hplain]. intros Hok.
    destruct (IH _ Hok) as (Hg & Hnd & Hall). rewrite Hg, with_nodes_app.
    split; [done|].
    assert (Hrest : Forall (fun a => name a <> name agent
        /\ (name a ∉ map fst (nodes g))
        /\ plain_node_name (channels g) (name a)) agents).
    { rewrite Forall_forall in Hall. apply Forall_forall. intros a Ha.
      destruct (Hall a Ha) as [Hfree' Hplain'].
      rewrite with_nodes_one_names in Hfree'.
      split; [|split]; [|by intros ?; apply Hfree'; left|done].
      intros Heq. apply Hfree'. by right. }
    split.
    + constructor; [|done]. intros (a & Hname & Ha)%list_elem_of_fmap.
      rewrite Forall_forall in Hrest. destruct (Hrest a Ha) as [Hne _]. congruence.
    + constructor; [done|]. eapply Forall_impl; [exact Hrest|].
      by intros a (_ & Hfree' & Hplain').
Qed.

(** Every way through [create_swarm]. *)
Lemma create_swarm_run σ agents default_active_agent state_schema :
  create_swarm agents default_active_agent state_schema σ
  = if negb (contains (annotations state_schema) (lit "active_agent"))
    then (Raise (ValueError SchemaMissingActiveAgent), σ)
    else if negb (contains (type_hints state_schema) (lit "active_agent"))
    then (Raise (ValueError BuilderMissingActiveAgent),
          σ ++ [empty_graph state_schema])
    else if negb (list_contains (map name agents) default_active_agent)
    then (Raise (ValueError (DefaultNotInRoutes default_active_agent
                               (map name agents))),
          σ ++ [empty_graph state_schema])
    else let routed :=
           with_branch (empty_graph state_schema) START
             (route_to_active_agent default_active_agent) (map name agents) in
         (match fst (register_all routed agents) with
          | Some why => Raise (ValueError why)
          | None => Ok (length σ)
          end,
          σ ++ [snd (register_all routed agents)]).
Proof.
  unfold create_swarm.
  destruct (negb (contains (annotations state_schema) (lit "active_agent")));
    [done|].
  unfold Store.bind at 1. unfold new_StateGraph. fold (empty_graph state_schema).
  set (g0 := empty_graph state_schema).
  assert (Hb : (σ ++ [g0]) !! length σ = Some g0)
    by apply list_lookup_middle, eq_refl.
  unfold Store.bind at 1. rewrite (add_active_agent_router_run _ _ _ _ _ Hb).
  change (channels g0) with (type_hints state_schema).
  destruct (negb (contains (type_hints state_schema) (lit "active_agent")));
    [done|].
  destruct (negb (list_contains (map name agents) default_active_agent));
    [done|].
  change (has_branch g0 START (lit "route_to_active_agent")) with false.
  cbv iota zeta.
  set (g1 := with_branch g0 START _ _).
  assert (Hlast : forall g', <[length σ := g']> (σ ++ [g0]) = σ ++ [g']).
  { intros g'. rewrite <- (Nat.add_0_r (length σ)). by rewrite insert_app_r. }
  unfold Store.bind at 1. rewrite (add_nodes_loop _ _ _ g1)
    by (apply list_lookup_insert_eq; rewrite length_app; simpl; lia).
  rewrite list_insert_insert_eq, Hlast.
  by destruct (fst (register_all g1 agents)).
Qed.

(** C6: when the annotations of the state schema have no
    ["active_agent"], [create_swarm] raises [ValueError] and the store
    is untouched: no graph has been constructed. *)
Theorem create_swarm_requires_active_agent
    σ (agents : list CompiledStateGraph) (default_active_agent : str)
    (state_schema : StateSchemaType) :
  annotations state_schema !! lit "active_agent" = None ->
  create_swarm agents default_active_agent state_schema σ
  = (Raise (ValueError SchemaMissingActiveAgent), σ).
Proof.
  intros Hann%contains_false. unfold create_swarm. by rewrite Hann.
Qed.

(** C7, as the code has it: for a state schema with the
    ["active_agent"] field, a default agent that is the name of one of
    the agents (so the list is not empty), and agents whose names are
    pairwise distinct and accepted by the builder as node names,
    [create_swarm] returns a new graph with one node per agent, in
    order, named after the agent, holding the agent and declaring that
    agent's handoff destinations, and with the active-agent router over
    all agent names on its entry edge. *)
Theorem create_swarm_graph
    σ (agents : list CompiledStateGraph) (default_active_agent : str)
    (state_schema : StateSchemaType) :
  agents <> [] ->
  is_Some (annotations state_schema !! lit "active_agent") ->
  is_Some (type_hints state_schema !! lit "active_agent") ->
  default_active_agent ∈ map name agents ->
  NoDup (map name agents) ->
  Forall (plain_node_name (type_hints state_schema)) (map name agents) ->
  exists g,
    create_swarm agents default_active_agent state_schema σ
    = (Ok (length σ), σ ++ [g])
    /\ schema g = state_schema
    /\ Forall2 (fun agent node =>
                  fst node = name agent
                  /\ runnable (snd node) = agent
                  /\ get_handoff_destinations agent default_tool_node_name
                     = Ok (destinations (snd node)))
               agents (nodes g)
    /\ branches g
       = [(START, {| branch_name := lit "route_to_active_agent";
                     path := route_to_active_agent default_active_agent;
                     path_map := map name agents |})].
Proof.
  intros _ Hann%contains_true Hch%contains_true Hdef%list_contains_true Hnd Hplain.
  set (g1 := with_branch (empty_graph state_schema) START
               (route_to_active_agent default_active_agent) (map name agents)).
  exists (with_nodes g1 (map node_of agents)).
  split; [|split; [done|split; [|done]]].
  - rewrite create_swarm_run, Hann, Hch, Hdef. cbn [negb]. cbv zeta. fold g1.
    rewrite (register_all_accepts agents g1); [done|done|].
    rewrite Forall_fmap in Hplain. eapply Forall_impl; [exact Hplain|].
    intros a Ha. split; [|done]. cbn. apply not_elem_of_nil.
  - simpl. clear. induction agents as [|agent agents IH]; simpl; constructor; [|done].
    simpl. split; [done|]. split; [done|]. apply get_handoff_destinations_default.
Qed.

End Swarm.

(** ** The definitions at work *)

Section Runs_on_samples.

Example normalize_spaces :
  @_normalize_agent_name ascii_case (lit "  Flight   Booking Agent ")
  = lit "flight_booking_agent".
Proof. reflexivity. Qed.

Example normalize_tab_newline_nbsp :
  @_normalize_agent_name ascii_case
    (lit "Research" ++ [9; 10; 160]%N ++ lit "Desk")
  = lit "research_desk".
Proof. reflexivity. Qed.

Example normalize_only_spaces :
  @_normalize_agent_name ascii_case (lit "   ") = [].
Proof. reflexivity. Qed.

Example sample_tool_names :
  tool_name Sample.to_alice = lit "transfer_to_alice"
  /\ tool_name Sample.to_bob = lit "transfer_to_bob_the_builder".
Proof. split; reflexivity. Qed.

Example sample_runs :
  Spec.runs (lit "a  b") = [(false, lit "a"); (true, lit "  "); (false, lit "b")].
Proof. reflexivity. Qed.

Example handoff_without_messages :
  invoke Sample.to_alice ∅ (lit "call_1") = Raise (KeyError (lit "messages")).
Proof. reflexivity. Qed.

Example handoff_messages_not_a_list :
  invoke Sample.to_alice (<[lit "messages" := VNone]> ∅) (lit "call_1")
  = Raise TypeError.
Proof. reflexivity. Qed.

Example sample_destinations :
  get_handoff_destinations Sample.alice_agent default_tool_node_name
  = Ok [VStr Sample.bob]
  /\ get_handoff_destinations Sample.bob_agent default_tool_node_name
     = Ok [VStr Sample.alice]
  /\ get_handoff_destinations Sample.carol_agent default_tool_node_name = Ok [].
Proof. repeat split; reflexivity. Qed.

Example route_active_or_default :
  route_to_active_agent Sample.alice Sample.state_with_bob = VStr Sample.bob
  /\ route_to_active_agent Sample.alice Sample.state = VStr Sample.alice
  /\ route_to_active_agent Sample.alice (<[lit "active_agent" := VNone]> Sample.state)
     = VNone.
Proof. repeat split; reflexivity. Qed.

Example router_default_not_routed :
  add_active_agent_router 0 [Sample.alice] Sample.bob [Sample.swarm_builder]
  = (Raise (ValueError (DefaultNotInRoutes Sample.bob [Sample.alice])),
     [Sample.swarm_builder]).
Proof. reflexivity. Qed.

Example sample_swarm_nodes :
  match create_swarm [Sample.alice_agent; Sample.bob_agent] Sample.alice SwarmState [] with
  | (Ok b, [g]) =>
      b = 0
      /\ map fst (nodes g) = [Sample.alice; Sample.bob]
      /\ map (fun n => destinations (snd n)) (nodes g)
         = [[VStr Sample.bob]; [VStr Sample.alice]]
      /\ map fst (branches g) = [START]
  | _ => False
  end.
Proof. vm_compute. repeat split; reflexivity. Qed.

End Runs_on_samples.

(** ** The theorems on the sample swarm *)

Section On_samples.

Lemma handoff_goto_and_one_message_sample :
  Sample.state !! lit "messages" = Some (VList Sample.log)
  /\ exists cmd,
       invoke Sample.to_bob Sample.state (lit "call_7") = Ok cmd
       /\ goto cmd = Sample.bob
       /\ update cmd !! lit "messages"
          = Some (VList (Sample.log ++
              [VMsg (ToolMessage (handoff_message_prefix ++ Sample.bob)
                       (tool_name Sample.to_bob) (lit "call_7"))])).
Proof.
  split; [reflexivity|].
  apply (@handoff_goto_and_one_message ascii_case Sample.bob
           (Some (lit "ask Bob")) Sample.state Sample.log (lit "call_7")).
  reflexivity.
Defined.

Lemma handoff_sets_active_agent_sample :
  exists cmd,
    invoke Sample.to_bob Sample.state (lit "call_7") = Ok cmd
    /\ update cmd !! lit "active_agent" = Some (VStr (lit " Bob  the Builder ")).
Proof.
  destruct (@handoff_sets_active_agent ascii_case Sample.bob
              (Some (lit "ask Bob")) Sample.state (lit "call_7")) as [Hset Hret].
  destruct (Hret Sample.log eq_refl) as [cmd Hcmd].
  exists cmd. split; [exact Hcmd | exact (Hset cmd Hcmd)].
Defined.

Lemma installed_router_sample :
  exists g' router,
    add_active_agent_router 0 [Sample.alice; Sample.bob] Sample.alice
      [Sample.swarm_builder]
    = (Ok 0, <[0 := g']> [Sample.swarm_builder])
    /\ branches g' = branches Sample.swarm_builder ++ [(START, router)]
    /\ forall state : gmap str value,
         path router state
         = match state !! lit "active_agent" with
           | Some active => active
           | None => VStr Sample.alice
           end.
Proof.
  destruct (installed_router_reads_active_agent [Sample.swarm_builder] 0
              Sample.swarm_builder [Sample.alice; Sample.bob] Sample.alice eq_refl)
    as [Hreturned Hreturns].
  destruct Hreturns as [σ' Hrun].
  - eexists. reflexivity.
  - apply (bool_decide_unpack _). vm_compute. exact I.
  - reflexivity.
  - destruct (Hreturned 0 σ' Hrun) as (g' & router & _ & Hσ' & Hbr & Hpath).
    exists g', router. split; [by rewrite Hrun, Hσ'|]. split; [exact Hbr|exact Hpath].
Defined.

Lemma router_raises_iff_sample :
  add_active_agent_router 0 [Sample.alice; Sample.bob] Sample.alice
    Walk.two_builders
  = (Ok 0, Walk.two_builders_routed)
  /\ ~ (exists why σ',
          add_active_agent_router 0 [Sample.alice; Sample.bob] Sample.alice
            Walk.two_builders
          = (Raise (ValueError why), σ')).
Proof.
  destruct (add_active_agent_router_raises_iff Walk.two_builders 0
              Sample.swarm_builder [Sample.alice; Sample.bob] Sample.alice eq_refl)
    as [Hiff Hreturns].
  assert (Hfine :
    ~ (channels Sample.swarm_builder !! lit "active_agent" = None
       \/ Sample.alice ∉ [Sample.alice; Sample.bob]
       \/ has_branch Sample.swarm_builder START (lit "route_to_active_agent")
          = true)).
  { intros [Hnone | [Hnot | Hhas]].
    - discriminate Hnone.
    - apply Hnot. apply list_elem_of_here.
    - discriminate Hhas. }
  split.
  - exact (Hreturns Hfine).
  - intros Hraises. apply Hfine. apply Hiff. exact Hraises.
Defined.

(** C3, as the claim words it, fails on a second call: the first call
    installs the router, and the second, on the same builder with the
    same arguments, passes both checks of this package and still raises
    [ValueError], the entry node having that branch already. *)
Lemma second_router_is_refused :
  add_active_agent_router 0 [Sample.alice; Sample.bob] Sample.alice
    Walk.two_builders
  = (Ok 0, Walk.two_builders_routed)
  /\ add_active_agent_router 0 [Sample.alice; Sample.bob] Sample.alice
       Walk.two_builders_routed
     = (Raise (ValueError
                 (BranchAlreadyExists (lit "route_to_active_agent") START)),
        Walk.two_builders_routed)
  /\ ~ ((exists why σ',
           add_active_agent_router 0 [Sample.alice; Sample.bob] Sample.alice
             Walk.two_builders_routed
           = (Raise (ValueError why), σ'))
        <-> (channels Sample.swarm_builder !! lit "active_agent" = None
             \/ Sample.alice ∉ [Sample.alice; Sample.bob])).
Proof.
  split; [reflexivity|].
  assert (Hsecond :
    add_active_agent_router 0 [Sample.alice; Sample.bob] Sample.alice
      Walk.two_builders_routed
    = (Raise (ValueError
                (BranchAlreadyExists (lit "route_to_active_agent") START)),
       Walk.two_builders_routed)) by reflexivity.
  split; [exact Hsecond|].
  intros [Hraises _]. destruct Hraises as [Hnone | Hnot].
  - eexists _, _. exact Hsecond.
  - discriminate Hnone.
  - apply Hnot. apply list_elem_of_here.
Qed.

Lemma router_atomic_sample :
  add_active_agent_router 0 [Sample.alice] Sample.alice [Sample.messages_builder]
  = (Raise (ValueError BuilderMissingActiveAgent), [Sample.messages_builder])
  /\ [Sample.messages_builder] = [Sample.messages_builder]
  /\ [Sample.messages_builder] !! 0 = [Sample.messages_builder] !! 0.
Proof.
  split; [reflexivity|].
  apply (add_active_agent_router_atomic [Sample.messages_builder]
           [Sample.messages_builder] 0 [Sample.alice] Sample.alice
           BuilderMissingActiveAgent).
  reflexivity.
Defined.

Lemma create_swarm_requires_active_agent_sample :
  annotations Sample.MessagesState !! lit "active_agent" = None
  /\ create_swarm [Sample.alice_agent] Sample.alice Sample.MessagesState
       [Sample.swarm_builder]
     = (Raise (ValueError SchemaMissingActiveAgent), [Sample.swarm_builder]).
Proof.
  split; [reflexivity|].
  apply (create_swarm_requires_active_agent [Sample.swarm_builder]
           [Sample.alice_agent] Sample.alice Sample.MessagesState).
  reflexivity.
Defined.

Lemma create_swarm_graph_sample :
  exists g,
    create_swarm [Sample.alice_agent; Sample.bob_agent; Sample.carol_agent]
      Sample.bob SwarmState []
    = (Ok 0, [g])
    /\ schema g = SwarmState
    /\ Forall2 (fun agent node =>
                  fst node = name agent
                  /\ runnable (snd node) = agent
                  /\ get_handoff_destinations agent default_tool_node_name
                     = Ok (destinations (snd node)))
               [Sample.alice_agent; Sample.bob_agent; Sample.carol_agent] (nodes g)
    /\ branches g
       = [(START, {| path := route_to_active_agent Sample.bob;
                     branch_name := lit "route_to_active_agent";
                     path_map := [Sample.alice; Sample.bob; lit "carol"] |})].
Proof.
  apply (create_swarm_graph []
           [Sample.alice_agent; Sample.bob_agent; Sample.carol_agent]
           Sample.bob SwarmState).
  - discriminate.
  - eexists. reflexivity.
  - eexists. reflexivity.
  - apply (bool_decide_unpack _). vm_compute. exact I.
  - apply (bool_decide_unpack _). vm_compute. exact I.
  - unfold plain_node_name. apply (bool_decide_unpack _). vm_compute. exact I.
Defined.

(** C7, as the claim words it, fails when two agents have one name: the
    list is not empty, the schema has the field and the default is an
    agent name, yet the builder refuses the second node and
    [create_swarm] raises [ValueError]. *)
Lemma create_swarm_same_name_twice :
  [Sample.alice_agent; Sample.alice_agent] <> []
  /\ is_Some (annotations SwarmState !! lit "active_agent")
  /\ is_Some (type_hints SwarmState !! lit "active_agent")
  /\ Sample.alice ∈ map name [Sample.alice_agent; Sample.alice_agent]
  /\ (exists σ',
        create_swarm [Sample.alice_agent; Sample.alice_agent] Sample.alice
          SwarmState []
        = (Raise (ValueError (NodeAlreadyPresent Sample.alice)), σ'))
  /\ ~ (exists builder σ',
          create_swarm [Sample.alice_agent; Sample.alice_agent] Sample.alice
            SwarmState []
          = (Ok builder, σ')).
Proof.
  split; [discriminate|]. split; [by eexists|]. split; [by eexists|].
  split; [apply list_elem_of_here|].
  assert (Hrun : exists σ',
    create_swarm [Sample.alice_agent; Sample.alice_agent] Sample.alice SwarmState []
    = (Raise (ValueError (NodeAlreadyPresent Sample.alice)), σ'))
    by (eexists; reflexivity).
  split; [exact Hrun|]. destruct Hrun as [σ1 Hrun].
  intros (builder & σ' & Hok). rewrite Hrun in Hok. discriminate Hok.
Qed.

Lemma handoff_destinations_roundtrip_sample :
  get_handoff_destinations Sample.alice_agent (lit "tools")
  = Ok [VStr Sample.bob].
Proof.
  apply (@handoff_destinations_roundtrip ascii_case Sample.alice_agent (lit "tools")
           [(tool_name Sample.search, Sample.search);
            (tool_name Sample.to_bob, Sample.to_bob)]
           [Other Sample.search; Handoff Sample.bob (Some (lit "ask Bob"))]).
  - reflexivity.
  - reflexivity.
  - repeat constructor.
Defined.

End On_samples.

(** * Further properties *)

(** ** Whitespace in agent names *)

Section Whitespace.

Lemma drop_while_all_space l s :
  all_space l -> drop_while isspace (l ++ s) = drop_while isspace s.
Proof.
  induction 1 as [|c l Hc _ IH]; simpl; [done|]. by rewrite Hc.
Qed.

Lemma drop_while_has_word a x :
  has_word a -> drop_while isspace (a ++ x) = drop_while isspace a ++ x.
Proof.
  induction a as [|c a IH]; intros Ha; [by inversion Ha|]. simpl.
  destruct (isspace c) eqn:Hc; [|done].
  apply IH. inversion Ha; subst; [congruence|done].
Qed.

Lemma drop_while_no_head s : head_space s = false -> drop_while isspace s = s.
Proof. destruct s as [|c s]; simpl; [done|]. by intros ->. Qed.

Lemma all_space_rev l : all_space l -> all_space (rev l).
Proof.
  unfold all_space. rewrite !Forall_forall. intros Hl c Hc. apply Hl.
  apply list_elem_of_In. apply list_elem_of_In in Hc. by apply in_rev.
Qed.

Lemma no_space_rev s : no_space s -> no_space (rev s).
Proof.
  unfold no_space. rewrite !Forall_forall. intros Hs c Hc. apply Hs.
  apply list_elem_of_In. apply list_elem_of_In in Hc. by apply in_rev.
Qed.

Lemma has_word_rev s : has_word s -> has_word (rev s).
Proof.
  unfold has_word. rewrite !Exists_exists. intros (c & Hc & Hsp). exists c.
  split; [|done]. apply list_elem_of_In. apply list_elem_of_In in Hc.
  by apply in_rev in Hc.
Qed.

Lemma rstrip_app_all_space x r : all_space r -> rstrip (x ++ r) = rstrip x.
Proof.
  intros Hr. unfold rstrip. rewrite rev_app_distr.
  by rewrite drop_while_all_space by by apply all_space_rev.
Qed.

Lemma rstrip_app_has_word x b : has_word b -> rstrip (x ++ b) = x ++ rstrip b.
Proof.
  intros Hb. unfold rstrip. rewrite rev_app_distr.
  rewrite drop_while_has_word by by apply has_word_rev.
  by rewrite rev_app_distr, rev_involutive.
Qed.

Lemma strip_app_all_space_r s r : all_space r -> strip (s ++ r) = strip s.
Proof.
  intros Hr. unfold strip, lstrip. induction s as [|c s IH]; simpl.
  - rewrite <- (app_nil_r r) at 1. by rewrite drop_while_all_space.
  - destruct (isspace c); [done|]. by apply (rstrip_app_all_space (c :: s)).
Qed.

Lemma strip_outer_whitespace l s r :
  all_space l -> all_space r -> strip (l ++ s ++ r) = strip s.
Proof.
  intros Hl Hr. rewrite <- (strip_app_all_space_r s r Hr).
  unfold strip, lstrip. by rewrite drop_while_all_space.
Qed.

Lemma strip_no_space s : no_space s -> strip s = s.
Proof.
  intros Hs. unfold strip, lstrip, rstrip.
  rewrite (drop_while_no_head s) by (destruct Hs; simpl; done).
  rewrite drop_while_no_head; [apply rev_involutive|].
  apply no_space_rev in Hs. by destruct Hs.
Qed.

Lemma strip_inner a x b :
  has_word a -> has_word b -> strip (a ++ x ++ b) = lstrip a ++ x ++ rstrip b.
Proof.
  intros Ha Hb. unfold strip, lstrip. rewrite drop_while_has_word by done.
  rewrite !app_assoc. rewrite rstrip_app_has_word by done. done.
Qed.

(** How one more character in front changes the collapsed string. *)
Lemma collapse_cons c s :
  Spec.collapse_runs (c :: s)
  = if isspace c
    then (if head_space s then Spec.collapse_runs s
          else lit "_" ++ Spec.collapse_runs s)
    else c :: Spec.collapse_runs s.
Proof.
  destruct (isspace c) eqn:Hc; [|by apply collapse_cons_other].
  destruct s as [|d s]; simpl head_space.
  - by rewrite collapse_cons_space_end.
  - destruct (isspace d) eqn:Hd.
    + by apply collapse_cons_space_space.
    + by apply collapse_cons_space_other.
Qed.

Lemma collapse_no_space s : no_space s -> Spec.collapse_runs s = s.
Proof.
  induction 1 as [|c s Hc _ IH]; [done|].
  by rewrite collapse_cons, Hc, IH.
Qed.

Lemma collapse_is_no_space s : no_space (Spec.collapse_runs s).
Proof.
  induction s as [|c s IH]; [by constructor|].
  rewrite collapse_cons. destruct (isspace c) eqn:Hc.
  - destruct (head_space s); [done|]. by constructor.
  - by constructor.
Qed.

Lemma collapse_head_space s :
  head_space s = true ->
  Spec.collapse_runs s = lit "_" ++ Spec.collapse_runs (drop_while isspace s).
Proof.
  induction s as [|c s IH]; simpl; [done|]. intros Hc.
  rewrite collapse_cons, Hc. destruct (head_space s) eqn:Hs.
  - by apply IH.
  - by rewrite drop_while_no_head.
Qed.

(** What precedes a piece of text sees of it only its collapsed form
    and whether it starts with whitespace. *)
Lemma collapse_app_cong a x y :
  Spec.collapse_runs x = Spec.collapse_runs y ->
  head_space x = head_space y ->
  Spec.collapse_runs (a ++ x) = Spec.collapse_runs (a ++ y)
  /\ head_space (a ++ x) = head_space (a ++ y).
Proof.
  intros Hxy Hh. induction a as [|c a [IHc IHh]]; [done|].
  split; [|done]. simpl. by rewrite !collapse_cons, IHc, IHh.
Qed.

Lemma collapse_space_run w b :
  all_space w -> w <> [] ->
  Spec.collapse_runs (w ++ b)
  = lit "_" ++ Spec.collapse_runs (drop_while isspace b)
  /\ head_space (w ++ b) = true.
Proof.
  intros Hw Hne.
  assert (Hh : head_space (w ++ b) = true) by (destruct Hw; simpl; done).
  split; [|done]. rewrite collapse_head_space by done.
  by rewrite drop_while_all_space.
Qed.

End Whitespace.

(** ** Tool names *)

Section ToolNames.
Context `{CaseMapping}.

Lemma tool_name_create agent_name description :
  tool_name (create_handoff_tool agent_name description)
  = lit "transfer_to_" ++ _normalize_agent_name agent_name.
Proof. reflexivity. Qed.

(** Whitespace around an agent name does not reach the tool name: the
    name with and without it give the same tool name, though the two
    tools hand off to differently named agents. *)
Theorem tool_name_ignores_outer_whitespace
    (l s r : str) (description description' : option str) :
  all_space l -> all_space r ->
  _normalize_agent_name (l ++ s ++ r) = _normalize_agent_name s
  /\ tool_name (create_handoff_tool (l ++ s ++ r) description)
     = tool_name (create_handoff_tool s description').
Proof.
  intros Hl Hr.
  assert (E : _normalize_agent_name (l ++ s ++ r) = _normalize_agent_name s).
  { unfold _normalize_agent_name. by rewrite strip_outer_whitespace. }
  split; [done|]. by rewrite !tool_name_create, E.
Qed.

(** Between two words, which whitespace characters separate them and
    how many does not matter: any non-empty run gives one underscore. *)
Theorem tool_name_ignores_run_length
    (a w1 w2 b : str) (description description' : option str) :
  has_word a -> has_word b ->
  all_space w1 -> w1 <> [] -> all_space w2 -> w2 <> [] ->
  tool_name (create_handoff_tool (a ++ w1 ++ b) description)
  = tool_name (create_handoff_tool (a ++ w2 ++ b) description').
Proof.
  intros Ha Hb Hw1 Hn1 Hw2 Hn2. rewrite !tool_name_create.
  unfold _normalize_agent_name. rewrite !sub_collapse, !strip_inner by done.
  do 2 f_equal.
  destruct (collapse_space_run w1 (rstrip b) Hw1 Hn1) as [E1 H1].
  destruct (collapse_space_run w2 (rstrip b) Hw2 Hn2) as [E2 H2].
  apply collapse_app_cong; congruence.
Qed.

(** A name without whitespace is only lowercased. *)
Theorem tool_name_of_plain_name (agent_name : str) (description : option str) :
  no_space agent_name ->
  tool_name (create_handoff_tool agent_name description)
  = lit "transfer_to_" ++ lower agent_name.
Proof.
  intros Hs. rewrite tool_name_create. unfold _normalize_agent_name.
  by rewrite sub_collapse, strip_no_space, collapse_no_space.
Qed.

(** A blank agent name, empty or all whitespace, is normalised like the
    empty string: all blank names share one tool name. *)
Theorem tool_name_of_blank_name (agent_name : str) (description : option str) :
  all_space agent_name ->
  tool_name (create_handoff_tool agent_name description)
  = lit "transfer_to_" ++ lower [].
Proof.
  intros Hs. rewrite tool_name_create. unfold _normalize_agent_name.
  rewrite <- (app_nil_r agent_name).
  change (agent_name ++ []) with (agent_name ++ [] ++ []).
  by rewrite strip_outer_whitespace by (done || constructor).
Qed.

(** What is handed to [lower] has no whitespace left, so when
    lowercasing introduces none the tool name has none. *)
Theorem tool_name_has_no_whitespace (agent_name : str) (description : option str) :
  (forall t, no_space t -> no_space (lower t)) ->
  no_space (tool_name (create_handoff_tool agent_name description)).
Proof.
  intros Hlower. rewrite tool_name_create. apply Forall_app. split.
  - repeat constructor.
  - apply Hlower. rewrite sub_collapse. apply collapse_is_no_space.
Qed.

End ToolNames.

Lemma ascii_lower_no_space t : no_space t -> no_space (@lower ascii_case t).
Proof.
  simpl. induction 1 as [|c t Hc _ IH]; simpl; constructor; [|done].
  unfold ascii_lower_char.
  destruct ((65 <=? c) && (c <=? 90))%N eqn:E; [|done].
  apply andb_true_iff in E as [E1%N.leb_le E2%N.leb_le].
  apply not_true_iff_false. unfold isspace. intros Hs.
  rewrite !orb_true_iff, !andb_true_iff, !N.leb_le, !N.eqb_eq in Hs. lia.
Qed.

(** ** Invoking a handoff tool *)

Section Invocation.
Context `{CaseMapping}.


(** A returned command addresses the parent graph and updates the two
    keys ["messages"] and ["active_agent"], no other; and the tool reads
    nothing of the state but ["messages"]. *)
Theorem handoff_reads_and_writes
    (agent_name : str) (description : option str)
    (state state' : gmap str value) (tool_call_id : str) (cmd : Command) :
  invoke (create_handoff_tool agent_name description) state tool_call_id = Ok cmd ->
  state' !! lit "messages" = state !! lit "messages" ->
  graph cmd = PARENT
  /\ dom (update cmd) = ({[lit "messages"; lit "active_agent"]} : gset str)
  /\ invoke (create_handoff_tool agent_name description) state' tool_call_id = Ok cmd.
Proof.
  rewrite !invoke_create_handoff_tool. intros Hcmd Hsame.
  destruct (handoff_to_agent_inv _ _ _ _ _ Hcmd) as (v & messages' & Hv & Hadd & ->).
  cbn [graph update]. split; [done|]. split.
  - rewrite !dom_insert_L, dom_empty_L. set_solver.
  - unfold handoff_to_agent, getitem. rewrite Hsame, Hv. cbn [Py.bind].
    by rewrite Hadd.
Qed.

(** The handoff and the router agree: in any state that has taken over
    the command's ["active_agent"], the router picks the agent that the
    command's [goto] names, whatever the router's default. *)
Theorem handoff_then_route
    (agent_name : str) (description : option str)
    (state state' : gmap str value) (tool_call_id : str) (cmd : Command)
    (default_active_agent : str) :
  invoke (create_handoff_tool agent_name description) state tool_call_id = Ok cmd ->
  state' !! lit "active_agent" = update cmd !! lit "active_agent" ->
  route_to_active_agent default_active_agent state' = VStr (goto cmd)
  /\ goto cmd = agent_name.
Proof.
  rewrite invoke_create_handoff_tool. intros Hcmd Hactive.
  destruct (handoff_to_agent_inv _ _ _ _ _ Hcmd) as (v & messages' & _ & _ & ->).
  cbn [update goto] in *. rewrite lookup_insert_eq in Hactive.
  unfold route_to_active_agent, get. by rewrite Hactive.
Qed.

End Invocation.

(** ** Reading destinations *)

Section Reading.

Lemma handoff_metadata_omap tools :
  handoff_metadata tools = Ok (omap declared_destination tools).
Proof.
  induction tools as [|tool tools IH]; simpl; [done|].
  unfold declared_destination at 1.
  destruct (metadata tool) as [md|]; simpl; [|done].
  unfold contains, getitem.
  destruct (md !! METADATA_KEY_HANDOFF_DESTINATION) as [v|] eqn:E; simpl.
  - by rewrite IH.
  - done.
Qed.

(** On a tool node the destinations are the values the tools declare
    under the handoff key, in the order of the node's dictionary; a tool
    with no metadata or without the key contributes nothing, and the
    names the tools are filed under play no part. *)
Theorem get_handoff_destinations_declared
    (agent : CompiledStateGraph) (tool_node_name : str)
    (tools_by_name : list (str * BaseTool)) :
  graph_nodes agent !! tool_node_name = Some (ToolNode tools_by_name) ->
  get_handoff_destinations agent tool_node_name
  = Ok (omap declared_destination (map snd tools_by_name)).
Proof.
  intros Hn. unfold get_handoff_destinations, contains, getitem. rewrite Hn.
  simpl. apply handoff_metadata_omap.
Qed.

End Reading.

(** ** What the router leaves alone *)

Section RouterFrame.
Implicit Types (σ : store) (builder : ref) (g : StateGraph).

(** Whatever the outcome, [add_active_agent_router] keeps the store's
    size and every other builder, and on its own builder it keeps the
    schema, the channels, the nodes and the branches already there. *)
Theorem add_active_agent_router_frame
    σ σ' builder (route_to : list str) (default_active_agent : str)
    (r : result ref) :
  add_active_agent_router builder route_to default_active_agent σ = (r, σ') ->
  length σ' = length σ
  /\ (forall other, other <> builder -> σ' !! other = σ !! other)
  /\ (forall g, σ !! builder = Some g ->
      exists g', σ' !! builder = Some g'
                 /\ schema g' = schema g
                 /\ channels g' = channels g
                 /\ nodes g' = nodes g
                 /\ exists added, branches g' = branches g ++ added).
Proof.
  intros Hrun.
  assert (Hsame : σ' = σ -> length σ' = length σ
    /\ (forall other, other <> builder -> σ' !! other = σ !! other)
    /\ (forall g, σ !! builder = Some g ->
        exists g', σ' !! builder = Some g' /\ schema g' = schema g
          /\ channels g' = channels g /\ nodes g' = nodes g
          /\ exists added, branches g' = branches g ++ added)).
  { intros ->. split; [done|]. split; [done|]. intros g Hg.
    exists g. repeat split; try done. exists []. by rewrite app_nil_r. }
  assert (Hcases : (exists g, σ !! builder = Some g) \/ σ !! builder = None)
    by (destruct (σ !! builder); eauto).
  destruct Hcases as [[g Hb]|Hb].
  - rewrite (add_active_agent_router_run _ _ _ _ _ Hb) in Hrun.
    destruct (negb (contains (channels g) (lit "active_agent")));
      [inversion Hrun; subst; by apply Hsame|].
    destruct (negb (list_contains route_to default_active_agent));
      [inversion Hrun; subst; by apply Hsame|].
    destruct (has_branch g START (lit "route_to_active_agent"));
      [inversion Hrun; subst; by apply Hsame|].
    inversion Hrun; subst. clear Hsame Hrun. split; [apply length_insert|]. split.
    + intros other Hne. by rewrite list_lookup_insert_ne.
    + intros g0 Hg0. rewrite Hb in Hg0. injection Hg0 as <-. eexists. split.
      * apply list_lookup_insert_eq. by eapply lookup_lt_Some.
      * simpl. repeat split; try done. by eexists.
  - unfold add_active_agent_router, Store.bind, read in Hrun. rewrite Hb in Hrun.
    inversion Hrun; subst. by apply Hsame.
Qed.

(** Once the router is installed, a state without ["active_agent"] is
    routed to the default agent, and that is one of the branch's own
    targets. *)
Theorem installed_router_default_is_target
    σ σ' builder builder' g (route_to : list str) (default_active_agent : str) :
  σ !! builder = Some g ->
  add_active_agent_router builder route_to default_active_agent σ
  = (Ok builder', σ') ->
  exists g' router,
    builder' = builder
    /\ σ' !! builder = Some g'
    /\ last (branches g') = Some (START, router)
    /\ path_map router = route_to
    /\ forall state : gmap str value,
         state !! lit "active_agent" = None ->
         path router state = VStr default_active_agent
         /\ default_active_agent ∈ path_map router.
Proof.
  intros Hb Hrun. rewrite (add_active_agent_router_run _ _ _ _ _ Hb) in Hrun.
  destruct (negb (contains (channels g) (lit "active_agent"))); [done|].
  destruct (list_contains route_to default_active_agent) eqn:Hdef; [|done].
  cbn [negb] in Hrun.
  destruct (has_branch g START (lit "route_to_active_agent")); [done|].
  inversion Hrun; subst. apply list_contains_true in Hdef.
  eexists _, _. split; [done|]. split.
  { apply list_lookup_insert_eq. by eapply lookup_lt_Some. }
  unfold with_branch. cbn [branches path path_map].
  split; [apply last_snoc|]. split; [done|].
  intros state Hnone. split; [|done].
  cbn [path]. unfold route_to_active_agent, get. by rewrite Hnone.
Qed.

End RouterFrame.

(** ** Every way through [create_swarm] *)

Section SwarmOutcomes.
Implicit Types (σ : store) (g : StateGraph).

(** A failure after the first check happens after the builder has been
    made: the store then holds one more builder, with no node and no
    branch on it. *)
Theorem create_swarm_late_failure
    σ (agents : list CompiledStateGraph) (default_active_agent : str)
    (state_schema : StateSchemaType) :
  is_Some (annotations state_schema !! lit "active_agent") ->
  type_hints state_schema !! lit "active_agent" = None
  \/ default_active_agent ∉ map name agents ->
  exists why,
    create_swarm agents default_active_agent state_schema σ
    = (Raise (ValueError why), σ ++ [empty_graph state_schema]).
Proof.
  intros Hann%contains_true Hlate. rewrite create_swarm_run, Hann. simpl.
  destruct (contains (type_hints state_schema) (lit "active_agent")) eqn:Hch;
    simpl; [|by eauto].
  destruct Hlate as [Hnone%contains_false | Hdef%list_contains_false];
    [congruence|]. rewrite Hdef. simpl. eauto.
Qed.

(** [create_swarm] raises [ValueError] whenever the schema lacks
    ["active_agent"] (in its annotations or in the fields that become
    channels), the default agent is not the name of an agent, two
    agents have the same name, or an agent has one of the reserved
    names of the entry and the exit. *)
Theorem create_swarm_raises_when
    σ (agents : list CompiledStateGraph) (default_active_agent : str)
    (state_schema : StateSchemaType) :
  annotations state_schema !! lit "active_agent" = None
  \/ type_hints state_schema !! lit "active_agent" = None
  \/ default_active_agent ∉ map name agents
  \/ ~ NoDup (map name agents)
  \/ START ∈ map name agents
  \/ END ∈ map name agents ->
  exists why σ',
    create_swarm agents default_active_agent state_schema σ
    = (Raise (ValueError why), σ').
Proof.
  intros Hbad. rewrite create_swarm_run.
  destruct (contains (annotations state_schema) (lit "active_agent")) eqn:Hann;
    cbn [negb]; [|by eauto].
  destruct (contains (type_hints state_schema) (lit "active_agent")) eqn:Hch;
    cbn [negb]; [|by eauto].
  destruct (list_contains (map name agents) default_active_agent) eqn:Hdef;
    cbn [negb]; [|by eauto].
  cbv zeta.
  destruct (fst (register_all _ agents)) as [why|] eqn:Hreg; [by eauto|].
  exfalso. apply register_all_accepted in Hreg as (_ & Hnd & Hall).
  apply contains_true in Hann as [? Hann], Hch as [? Hch].
  apply list_contains_true in Hdef.
  assert (Hnames : forall n, n ∈ map name agents -> n <> END /\ n <> START).
  { intros n (a & -> & Ha)%list_elem_of_fmap. rewrite Forall_forall in Hall.
    destruct (Hall a Ha) as (_ & _ & Hend & Hstart & _). done. }
  destruct Hbad as [?|[?|[?|[?|[Hs|He]]]]]; try congruence; try done.
  - by destruct (Hnames _ Hs).
  - by destruct (Hnames _ He).
Qed.

(** With no agents there is nothing the default could name:
    [create_swarm] on the empty list always raises [ValueError]. *)
Theorem create_swarm_no_agents
    σ (default_active_agent : str) (state_schema : StateSchemaType) :
  exists why σ',
    create_swarm [] default_active_agent state_schema σ
    = (Raise (ValueError why), σ').
Proof.
  rewrite create_swarm_run.
  destruct (negb (contains (annotations state_schema) (lit "active_agent")));
    [by eauto|].
  destruct (negb (contains (type_hints state_schema) (lit "active_agent")));
    [by eauto|].
  simpl. eauto.
Qed.

(** With the default schema [SwarmState] and agents whose names are
    pairwise distinct and accepted by the builder as node names, the
    only thing that can go wrong is the default agent: [create_swarm]
    returns a graph exactly when the default is the name of one of the
    agents. *)
Theorem create_swarm_default_schema
    σ (agents : list CompiledStateGraph) (default_active_agent : str) :
  NoDup (map name agents) ->
  Forall (plain_node_name (type_hints SwarmState)) (map name agents) ->
  (exists builder σ',
      create_swarm agents default_active_agent SwarmState σ = (Ok builder, σ'))
  <-> default_active_agent ∈ map name agents.
Proof.
  intros Hnd Hplain. rewrite create_swarm_run.
  change (contains (annotations SwarmState) (lit "active_agent")) with true.
  change (contains (type_hints SwarmState) (lit "active_agent")) with true.
  cbn [negb]. cbv iota.
  destruct (list_contains (map name agents) default_active_agent) eqn:Hdef;
    cbn [negb]; cbv iota zeta.
  - apply list_contains_true in Hdef. split; [done|]. intros _.
    rewrite register_all_accepts; [by eauto|done|].
    rewrite Forall_fmap in Hplain. eapply Forall_impl; [exact Hplain|].
    intros a Ha. split; [|done]. cbn. apply not_elem_of_nil.
  - apply list_contains_false in Hdef. split; [|done]. by intros (b & σ' & [=]).
Qed.

(** In a graph that [create_swarm] returns, the targets of the entry
    router are the names of the nodes, one for one and in order, and the
    default agent is among them: a fresh state is routed to a node that
    exists. *)
Theorem create_swarm_routes_are_nodes
    σ σ' builder (agents : list CompiledStateGraph) (default_active_agent : str)
    (state_schema : StateSchemaType) :
  create_swarm agents default_active_agent state_schema σ = (Ok builder, σ') ->
  exists g router,
    σ' !! builder = Some g
    /\ branches g = [(START, router)]
    /\ path_map router = map fst (nodes g)
    /\ map fst (nodes g) = map name agents
    /\ default_active_agent ∈ map fst (nodes g)
    /\ forall state : gmap str value,
         state !! lit "active_agent" = None ->
         path router state = VStr default_active_agent.
Proof.
  rewrite create_swarm_run.
  destruct (negb (contains (annotations state_schema) (lit "active_agent")));
    [done|].
  destruct (negb (contains (type_hints state_schema) (lit "active_agent")));
    [done|].
  destruct (list_contains (map name agents) default_active_agent) eqn:Hdef;
    [|done].
  cbn [negb]. cbv iota zeta.
  destruct (fst (register_all _ agents)) as [why|] eqn:Hreg; [done|].
  apply register_all_accepted in Hreg as (Hg & _ & _). rewrite Hg.
  intros [= <- <-]. apply list_contains_true in Hdef.
  assert (Hnames : map fst (map node_of agents) = map name agents).
  { clear. induction agents as [|a l IH]; simpl; [done|]. by rewrite IH. }
  eexists _, _. split; [apply list_lookup_middle, eq_refl|].
  unfold with_nodes, with_branch, empty_graph.
  cbn [branches nodes path path_map app].
  split; [done|]. rewrite Hnames. repeat split; try done.
  intros state Hnone. cbn [path]. unfold route_to_active_agent, get.
  by rewrite Hnone.
Qed.

(** Whatever the outcome, [create_swarm] leaves the builders that exist
    as they are; it adds at most one. *)
Theorem create_swarm_keeps_store
    σ σ' (agents : list CompiledStateGraph) (default_active_agent : str)
    (state_schema : StateSchemaType) (r : result ref) :
  create_swarm agents default_active_agent state_schema σ = (r, σ') ->
  exists added, σ' = σ ++ added /\ length added <= 1.
Proof.
  rewrite create_swarm_run.
  destruct (negb (contains (annotations state_schema) (lit "active_agent"))).
  { intros [= _ <-]. exists []. by rewrite app_nil_r; simpl; auto. }
  destruct (negb (contains (type_hints state_schema) (lit "active_agent"))).
  { intros [= _ <-]. eexists. split; [done|]. simpl. lia. }
  destruct (negb (list_contains (map name agents) default_active_agent));
    intros [= _ <-]; (eexists; split; [done|]; simpl; lia).
Qed.

End SwarmOutcomes.

(** ** The further properties on the sample swarm *)

Section Further_on_samples.

Lemma tool_name_ignores_outer_whitespace_sample :
  @_normalize_agent_name ascii_case (lit "  " ++ lit "Bob" ++ [9; 10]%N)
  = @_normalize_agent_name ascii_case (lit "Bob")
  /\ tool_name (@create_handoff_tool ascii_case
                  (lit "  " ++ lit "Bob" ++ [9; 10]%N) None)
     = tool_name (@create_handoff_tool ascii_case (lit "Bob") None).
Proof.
  apply (@tool_name_ignores_outer_whitespace ascii_case
           (lit "  ") (lit "Bob") [9; 10]%N None None);
    repeat constructor.
Defined.

Lemma tool_name_ignores_run_length_sample :
  tool_name (@create_handoff_tool ascii_case
               (lit "Bob" ++ lit " " ++ lit "Builder") None)
  = tool_name (@create_handoff_tool ascii_case
                 (lit "Bob" ++ [32; 9; 160]%N ++ lit "Builder") None).
Proof.
  apply (@tool_name_ignores_run_length ascii_case
           (lit "Bob") (lit " ") [32; 9; 160]%N (lit "Builder") None None).
  - apply Exists_cons_hd. reflexivity.
  - apply Exists_cons_hd. reflexivity.
  - repeat constructor.
  - discriminate.
  - repeat constructor.
  - discriminate.
Defined.

Lemma tool_name_of_plain_name_sample :
  tool_name (@create_handoff_tool ascii_case (lit "Flight_Desk") None)
  = lit "transfer_to_" ++ @lower ascii_case (lit "Flight_Desk").
Proof.
  apply (@tool_name_of_plain_name ascii_case (lit "Flight_Desk") None).
  repeat constructor.
Defined.

Lemma tool_name_of_blank_name_sample :
  tool_name (@create_handoff_tool ascii_case [32; 9; 12288]%N None)
  = lit "transfer_to_" ++ @lower ascii_case [].
Proof.
  apply (@tool_name_of_blank_name ascii_case [32; 9; 12288]%N None).
  repeat constructor.
Defined.

Lemma tool_name_has_no_whitespace_sample :
  no_space (tool_name Sample.to_bob).
Proof.
  apply (@tool_name_has_no_whitespace ascii_case Sample.bob (Some (lit "ask Bob"))).
  exact ascii_lower_no_space.
Defined.

Lemma handoff_reads_and_writes_sample :
  invoke Sample.to_bob Sample.state (lit "call_7") = Ok Walk.bob_command
  /\ graph Walk.bob_command = PARENT
  /\ dom (update Walk.bob_command)
     = ({[lit "messages"; lit "active_agent"]} : gset str)
  /\ invoke Sample.to_bob Sample.state_with_bob (lit "call_7")
     = Ok Walk.bob_command.
Proof.
  split; [reflexivity|].
  apply (@handoff_reads_and_writes ascii_case Sample.bob (Some (lit "ask Bob"))
           Sample.state Sample.state_with_bob (lit "call_7") Walk.bob_command);
    reflexivity.
Defined.

Lemma handoff_then_route_sample :
  route_to_active_agent Sample.alice Sample.state_with_bob
  = VStr (goto Walk.bob_command)
  /\ goto Walk.bob_command = Sample.bob.
Proof.
  apply (@handoff_then_route ascii_case Sample.bob (Some (lit "ask Bob"))
           Sample.state Sample.state_with_bob (lit "call_7") Walk.bob_command
           Sample.alice);
    reflexivity.
Defined.

Lemma get_handoff_destinations_declared_sample :
  get_handoff_destinations Walk.dave_agent (lit "tools")
  = Ok [VStr (lit "human"); VStr Sample.alice].
Proof.
  apply (get_handoff_destinations_declared Walk.dave_agent (lit "tools")
           [(lit "a", Sample.search); (lit "b", Walk.escalate);
            (lit "c", Sample.to_alice)]).
  reflexivity.
Defined.

Lemma add_active_agent_router_frame_sample :
  length Walk.two_builders_routed = length Walk.two_builders
  /\ (forall other, other <> 0 ->
      Walk.two_builders_routed !! other = Walk.two_builders !! other)
  /\ (forall g, Walk.two_builders !! 0 = Some g ->
      exists g', Walk.two_builders_routed !! 0 = Some g'
                 /\ schema g' = schema g
                 /\ channels g' = channels g
                 /\ nodes g' = nodes g
                 /\ exists added, branches g' = branches g ++ added).
Proof.
  apply (add_active_agent_router_frame Walk.two_builders Walk.two_builders_routed
           0 [Sample.alice; Sample.bob] Sample.alice (Ok 0)).
  reflexivity.
Defined.

Lemma installed_router_default_is_target_sample :
  exists g' router,
    0 = 0
    /\ Walk.two_builders_routed !! 0 = Some g'
    /\ last (branches g') = Some (START, router)
    /\ path_map router = [Sample.alice; Sample.bob]
    /\ forall state : gmap str value,
         state !! lit "active_agent" = None ->
         path router state = VStr Sample.alice
         /\ Sample.alice ∈ path_map router.
Proof.
  apply (installed_router_default_is_target Walk.two_builders
           Walk.two_builders_routed 0 0 Sample.swarm_builder
           [Sample.alice; Sample.bob] Sample.alice);
    reflexivity.
Defined.

Lemma create_swarm_late_failure_sample :
  exists why,
    create_swarm [Sample.alice_agent] Sample.bob SwarmState Walk.two_builders
    = (Raise (ValueError why), Walk.two_builders ++ [empty_graph SwarmState]).
Proof.
  apply (create_swarm_late_failure Walk.two_builders [Sample.alice_agent]
           Sample.bob SwarmState).
  - eexists. reflexivity.
  - right. apply (bool_decide_unpack _). vm_compute. exact I.
Defined.

Lemma create_swarm_routes_are_nodes_sample :
  exists g router,
    snd (create_swarm Walk.team Sample.bob SwarmState Walk.two_builders) !! 2
    = Some g
    /\ branches g = [(START, router)]
    /\ path_map router = map fst (nodes g)
    /\ map fst (nodes g) = map name Walk.team
    /\ Sample.bob ∈ map fst (nodes g)
    /\ forall state : gmap str value,
         state !! lit "active_agent" = None ->
         path router state = VStr Sample.bob.
Proof.
  apply (create_swarm_routes_are_nodes Walk.two_builders
           (snd (create_swarm Walk.team Sample.bob SwarmState Walk.two_builders))
           2 Walk.team Sample.bob SwarmState).
  reflexivity.
Defined.

Lemma create_swarm_keeps_store_sample :
  exists added,
    snd (create_swarm Walk.team Sample.bob SwarmState Walk.two_builders)
    = Walk.two_builders ++ added
    /\ length added <= 1.
Proof.
  apply (create_swarm_keeps_store Walk.two_builders
           (snd (create_swarm Walk.team Sample.bob SwarmState Walk.two_builders))
           Walk.team Sample.bob SwarmState (Ok 2)).
  reflexivity.
Defined.

End Further_on_samples.

(** ** Normalising twice, and which error comes first *)

Section Idempotence.
Context `{CaseMapping}.

(** A normalised name is a fixed point of the normalisation, as long as
    lowercasing introduces no whitespace and is itself idempotent. *)
Theorem normalize_agent_name_idempotent (agent_name : str) :
  (forall t, no_space t -> no_space (lower t)) ->
  (forall t, lower (lower t) = lower t) ->
  _normalize_agent_name (_normalize_agent_name agent_name)
  = _normalize_agent_name agent_name.
Proof.
  intros Hspace Hidem. unfold _normalize_agent_name. rewrite !sub_collapse.
  set (u := Spec.collapse_runs (strip agent_name)).
  assert (Hu : no_space (lower u)) by apply Hspace, collapse_is_no_space.
  by rewrite strip_no_space, collapse_no_space, Hidem.
Qed.

End Idempotence.

Lemma ascii_lower_idempotent t : @lower ascii_case (@lower ascii_case t) = @lower ascii_case t.
Proof.
  simpl. rewrite map_map. apply map_ext. intros c. unfold ascii_lower_char.
  destruct ((65 <=? c) && (c <=? 90))%N eqn:E; [|by rewrite E].
  apply andb_true_iff in E as [E1%N.leb_le E2%N.leb_le].
  destruct (N.leb_spec 65 (c + 32)); destruct (N.leb_spec (c + 32) 90);
    simpl; try done; lia.
Qed.

Lemma normalize_agent_name_idempotent_sample :
  @_normalize_agent_name ascii_case (@_normalize_agent_name ascii_case Sample.bob)
  = @_normalize_agent_name ascii_case Sample.bob.
Proof.
  apply (@normalize_agent_name_idempotent ascii_case Sample.bob).
  - exact ascii_lower_no_space.
  - exact ascii_lower_idempotent.
Defined.

Section ErrorOrder.
Implicit Types (σ : store) (builder : ref) (g : StateGraph).

(** The missing field is reported first: without ["active_agent"] among
    the channels the error is the one about the builder, whatever the
    routes; with it, a default outside the routes is reported with the
    default and the routes it was looked for in.  Either way the store
    stays as it was. *)
Theorem add_active_agent_router_error_order
    σ builder g (route_to : list str) (default_active_agent : str) :
  σ !! builder = Some g ->
  (channels g !! lit "active_agent" = None ->
   add_active_agent_router builder route_to default_active_agent σ
   = (Raise (ValueError BuilderMissingActiveAgent), σ))
  /\ (is_Some (channels g !! lit "active_agent") ->
      default_active_agent ∉ route_to ->
      add_active_agent_router builder route_to default_active_agent σ
      = (Raise (ValueError (DefaultNotInRoutes default_active_agent route_to)), σ)).
Proof.
  intros Hb. rewrite (add_active_agent_router_run _ _ _ _ _ Hb). split.
  - intros Hch%contains_false. by rewrite Hch.
  - intros Hch%contains_true Hdef%list_contains_false. by rewrite Hch, Hdef.
Qed.

Lemma add_active_agent_router_error_order_sample :
  (channels Sample.messages_builder !! lit "active_agent" = None ->
   add_active_agent_router 1 [Sample.alice] Sample.bob Walk.two_builders
   = (Raise (ValueError BuilderMissingActiveAgent), Walk.two_builders))
  /\ (is_Some (channels Sample.messages_builder !! lit "active_agent") ->
      Sample.bob ∉ [Sample.alice] ->
      add_active_agent_router 1 [Sample.alice] Sample.bob Walk.two_builders
      = (Raise (ValueError (DefaultNotInRoutes Sample.bob [Sample.alice])),
         Walk.two_builders)).
Proof.
  apply (add_active_agent_router_error_order Walk.two_builders 1
           Sample.messages_builder [Sample.alice] Sample.bob).
  reflexivity.
Defined.

End ErrorOrder.

(** ** Refusals on the sample swarm *)

Section Refusals_on_samples.

Lemma create_swarm_raises_when_sample :
  exists why σ',
    create_swarm [Sample.alice_agent; Sample.bob_agent; Sample.alice_agent]
      Sample.alice SwarmState Walk.two_builders
    = (Raise (ValueError why), σ').
Proof.
  apply (create_swarm_raises_when Walk.two_builders
           [Sample.alice_agent; Sample.bob_agent; Sample.alice_agent]
           Sample.alice SwarmState).
  right. right. right. left.
  apply (bool_decide_unpack _). vm_compute. exact I.
Defined.

Lemma create_swarm_default_schema_sample :
  (exists builder σ',
      create_swarm Walk.team Sample.bob SwarmState Walk.two_builders
      = (Ok builder, σ'))
  <-> Sample.bob ∈ map name Walk.team.
Proof.
  apply (create_swarm_default_schema Walk.two_builders Walk.team Sample.bob).
  - apply (bool_decide_unpack _). vm_compute. exact I.
  - unfold plain_node_name. apply (bool_decide_unpack _). vm_compute. exact I.
Defined.

Example reserved_name_is_refused :
  create_swarm
    [Sample.alice_agent; {| name := START; graph_nodes := ∅ |}]
    Sample.alice SwarmState []
  = (Raise (ValueError (NodeReserved START)),
     [with_nodes
        (with_branch (empty_graph SwarmState) START
           (route_to_active_agent Sample.alice) [Sample.alice; START])
        [node_of Sample.alice_agent]]).
Proof. reflexivity. Qed.

Example single_message_in_state :
  invoke Sample.to_alice
    (<[lit "messages" := VMsg (ChatMessage (lit "human") (lit "hello"))]> ∅)
    (lit "call_1")
  = Ok {| goto := Sample.alice;
          graph := PARENT;
          update :=
            <[lit "active_agent" := VStr Sample.alice]>
              (<[lit "messages" :=
                   VPromptTemplate
                     [VMsg (ChatMessage (lit "human") (lit "hello"));
                      VMsg (ToolMessage (handoff_message_prefix ++ Sample.alice)
                              (lit "transfer_to_alice") (lit "call_1"))]]> ∅) |}.
Proof. reflexivity. Qed.

End Refusals_on_samples.
